(** * todo-api-ts: the in-memory todo service, embedded and verified

    The development follows the three source files:
    - [types.ts]       the [Todo] record,
    - [validators.ts]  the three zod schemas,
    - the Express application: one handler per route over the module-level
      array [todos].

    Conventions of the embedding.
    - A JavaScript string is a [string]: a sequence of code units, compared
      code unit by code unit as [<] and [>] do on strings.
    - A JavaScript number that the code only uses as an integer (priority,
      page, pageSize, array indices, HTTP status codes) is a [Z].
    - An optional property ([description?], [dueDate?], [priority?]) is an
      [option]: the code never tells a missing key from a key holding
      [undefined] (the [??] operator, [== null] and JSON serialisation treat
      them alike).
    - [new Date().toISOString()] and [uuid()] read the environment: every
      handler takes the values they return as arguments.
    - The handlers are run one at a time (Node's event loop): a handler is a
      function from the store to a response and the next store. *)

From Stdlib Require Import ZArith String Ascii List Bool Lia Permutation Sorted.
From stdpp Require Import base option list gmap.

Local Open Scope Z_scope.

(** ** JavaScript primitives used by the handlers *)

Module Js.

(** [s.length] as a number. *)
Definition str_length (s : string) : Z := Z.of_nat (String.length s).

(** [a < b] on strings. *)
Definition str_lt (a b : string) : bool := String.ltb a b.

(** [hay.includes(needle)]. *)
Fixpoint includes (hay needle : string) : bool :=
  String.prefix needle hay
  || match hay with
     | EmptyString => false
     | String _ rest => includes rest needle
     end.

Section Arrays.
Context {A : Type}.

(** [l.findIndex(p)]: the first index whose element satisfies [p]. *)
Fixpoint find_from (p : A -> bool) (l : list A) (i : nat) : option nat :=
  match l with
  | [] => None
  | x :: rest => if p x then Some i else find_from p rest (S i)
  end.

(** [-1] when no element satisfies [p], as in JavaScript. *)
Definition findIndex (p : A -> bool) (l : list A) : Z :=
  match find_from p l 0 with
  | Some i => Z.of_nat i
  | None => -1
  end.

(** [l[idx]] for an integer [idx]; [undefined] is [None]. *)
Definition at_index (l : list A) (idx : Z) : option A :=
  if idx <? 0 then None else l !! Z.to_nat idx.

(** [l[idx] = x] for an index inside the array. *)
Definition set_index (l : list A) (idx : Z) (x : A) : list A :=
  <[Z.to_nat idx := x]> l.

(** [l.splice(idx, 1)] for [0 <= idx]: the removed elements and what is
    left of the array. *)
Definition splice1 (l : list A) (idx : Z) : list A * list A :=
  (take 1 (drop (Z.to_nat idx) l),
   take (Z.to_nat idx) l ++ drop (S (Z.to_nat idx)) l).

(** [l.slice(start, end)], with the clamping of relative indices that
    ECMAScript prescribes. *)
Definition slice (l : list A) (start end_ : Z) : list A :=
  let len := Z.of_nat (length l) in
  let k := if start <? 0 then Z.max (len + start) 0 else Z.min start len in
  let final := if end_ <? 0 then Z.max (len + end_) 0 else Z.min end_ len in
  let count := Z.max (final - k) 0 in
  take (Z.to_nat count) (drop (Z.to_nat k) l).

(** [l.sort(cmp)].  ECMAScript fixes the result for a consistent
    comparator: the stable arrangement in which no element is followed
    by one that compares below it.  Stable insertion computes it: an
    element moves right only past elements it compares strictly above. *)
Fixpoint sort_insert (cmp : A -> A -> Z) (x : A) (l : list A) : list A :=
  match l with
  | [] => [x]
  | y :: rest =>
      if 0 <? cmp x y then y :: sort_insert cmp x rest else x :: y :: rest
  end.

Fixpoint sort (cmp : A -> A -> Z) (l : list A) : list A :=
  match l with
  | [] => []
  | x :: rest => sort_insert cmp x (sort cmp rest)
  end.
End Arrays.

(** [Math.ceil(a / b)] for an array length [a] and [1 <= b <= 100]: the
    quotient is computed exactly enough that its ceiling is the integer
    one. *)
Definition ceil_div (a b : Z) : Z := - ((- a) / b).

End Js.

(** ** types.ts *)

Inductive TodoStatus := pending | done.

Record Todo := mkTodo {
  id : string;
  title : string;
  description : option string;
  status : TodoStatus;
  createdAt : string;
  updatedAt : string;
  dueDate : option string;
  priority : option Z
}.

Definition TodoStatus_eqb (a b : TodoStatus) : bool :=
  match a, b with
  | pending, pending | done, done => true
  | _, _ => false
  end.

(** ** validators.ts *)

(** A property of a JSON body as the schemas see it.  [RNumber] is a number
    with an integral value; [ROther] stands for every value no schema of this
    program accepts (booleans, numbers with a fraction, arrays, objects). *)
Inductive Raw :=
| RAbsent
| RNull
| RString (s : string)
| RNumber (n : Z)
| ROther.

(** The five properties the schemas look at; zod's [z.object] drops every
    other key of the input. *)
Record RawBody := mkRawBody {
  r_title : Raw;
  r_description : Raw;
  r_status : Raw;
  r_dueDate : Raw;
  r_priority : Raw
}.

(** [req.body] after [express.json()]. *)
Inductive Body :=
| BObject (fields : RawBody)
| BNotObject.

(** The three states of a property declared [.optional().nullable()]. *)
Inductive Nullable (A : Type) :=
| Absent
| Null
| Value (a : A).
Arguments Absent {A}.
Arguments Null {A}.
Arguments Value {A} a.

(** The outcome of [schema.parse]: the typed value, or the [ZodError] with
    the paths of the offending properties. *)
Inductive Parsed (A : Type) :=
| Valid (a : A)
| Invalid (issues : list string).
Arguments Valid {A} a.
Arguments Invalid {A} issues.

Record CreateInput := mkCreateInput {
  c_title : string;
  c_description : option string;
  c_dueDate : option string;
  c_priority : option Z
}.

Record UpdateInput := mkUpdateInput {
  u_title : option string;
  u_description : option string;
  u_status : option TodoStatus;
  u_dueDate : Nullable string;
  u_priority : Nullable Z
}.

Record ReplaceInput := mkReplaceInput {
  p_title : string;
  p_description : option string;
  p_status : TodoStatus;
  p_dueDate : option string;
  p_priority : option Z
}.

Inductive SortBy := SortCreatedAt | SortUpdatedAt | SortDueDate | SortPriority.
Inductive Order := asc | desc.

Record ListQuery := mkListQuery {
  q_q : option string;
  q_status : option TodoStatus;
  q_priority : option Z;
  q_sortBy : option SortBy;
  q_order : option Order;
  q_page : option Z;
  q_pageSize : option Z
}.

Module Zod.

(** [z.string().min(lo).max(hi)] *)
Definition string_between (lo hi : Z) (r : Raw) : option string :=
  match r with
  | RString s =>
      if (lo <=? Js.str_length s) && (Js.str_length s <=? hi)
      then Some s else None
  | _ => None
  end.

(** [z.string().datetime()], given zod's test for ISO date-times. *)
Definition datetime (is_datetime : string -> bool) (r : Raw) : option string :=
  match r with
  | RString s => if is_datetime s then Some s else None
  | _ => None
  end.

(** [z.union([z.literal(1), z.literal(2), z.literal(3)])] *)
Definition priority_literal (r : Raw) : option Z :=
  match r with
  | RNumber n => if (n =? 1) || (n =? 2) || (n =? 3) then Some n else None
  | _ => None
  end.

(** [z.union([z.literal('pending'), z.literal('done')])] *)
Definition status_of_string (s : string) : option TodoStatus :=
  if String.eqb s "pending" then Some pending
  else if String.eqb s "done" then Some done
  else None.

Definition status_literal (r : Raw) : option TodoStatus :=
  match r with
  | RString s => status_of_string s
  | _ => None
  end.

(** [schema.optional()] *)
Definition optional {A} (schema : Raw -> option A) (r : Raw)
  : option (option A) :=
  match r with
  | RAbsent => Some None
  | _ => Some <$> schema r
  end.

(** [schema.optional().nullable()] *)
Definition optional_nullable {A} (schema : Raw -> option A) (r : Raw)
  : option (Nullable A) :=
  match r with
  | RNull => Some Null
  | RAbsent => Some Absent
  | _ => Value <$> schema r
  end.

(** [schema.default(d)] over an optional schema *)
Definition with_default {A} (schema : Raw -> option (option A)) (d : A)
    (r : Raw) : option A :=
  match r with
  | RAbsent => Some d
  | _ => default d <$> schema r
  end.

(** The issue a property contributes to the [ZodError], if any. *)
Definition issue {A} (path : string) (o : option A) : list string :=
  match o with
  | Some _ => []
  | None => [path]
  end.

End Zod.

(** ** Responses *)

Record Envelope := mkEnvelope {
  data : list Todo;
  page : Z;
  pageSize : Z;
  total : Z;
  totalPages : Z
}.

Inductive Payload :=
| TodoJson (t : Todo)
| EnvelopeJson (e : Envelope)
| UndefinedJson                                (* res.json(undefined) *)
| NotFoundJson                                 (* { message: 'Not found' } *)
| ValidationErrorJson (issues : list string)   (* { message: 'Validation error', issues } *)
| InternalErrorJson.                           (* { message: 'Internal server error' } *)

Record Response := mkResponse {
  code : Z;
  payload : Payload
}.

(** [res.json(x)] answers 200 unless [res.status] was called first. *)
Definition json (p : Payload) : Response := mkResponse 200 p.
Definition not_found : Response := mkResponse 404 NotFoundJson.
(** [next(err)] with a [ZodError] reaches the error handler, which answers
    400 with the issues. *)
Definition validation_error (issues : list string) : Response :=
  mkResponse 400 (ValidationErrorJson issues).
(** [next(err)] with any other exception. *)
Definition internal_error : Response := mkResponse 500 InternalErrorJson.

(** A value read from a record by a computed key, [(a as any)[sortBy]]. *)
Inductive JsValue :=
| JUndefined
| JString (s : string)
| JNumber (n : Z).

(** ** The store

    [const todos: Todo[] = []].  Every element of the array is an object
    of its own: [push] and [todos[idx] = ...] only ever store an object
    literal built by the handler.  A store is therefore the list of the
    records' values, and writing a property of the record that [find]
    returned is writing it at the index where [find] stopped. *)
Abbreviation Store := (list Todo).

Section Service.

(** What the program takes from its libraries and is not in the source:
    zod's test for ISO date-time strings, [String.prototype.toLowerCase],
    and the values Express puts in [req.query], with the two things zod
    does to them: the [typeof v === 'string'] test and [Number(v)]
    followed by the integrality test of [.int()]. *)
Variable is_datetime : string -> bool.
Variable toLowerCase : string -> string.
Variable QueryParam : Type.
Variable as_string : QueryParam -> option string.
Variable coerce_int : QueryParam -> option Z.

(** *** The schemas *)

Definition createTodoSchema (b : Body) : Parsed CreateInput :=
  match b with
  | BNotObject => Invalid [""%string]
  | BObject f =>
      let t := Zod.string_between 1 200 (r_title f) in
      let d := Zod.optional (Zod.string_between 0 2000) (r_description f) in
      let du := Zod.optional (Zod.datetime is_datetime) (r_dueDate f) in
      let p := Zod.optional Zod.priority_literal (r_priority f) in
      match t, d, du, p with
      | Some t', Some d', Some du', Some p' =>
          Valid (mkCreateInput t' d' du' p')
      | _, _, _, _ =>
          Invalid (Zod.issue "title" t ++ Zod.issue "description" d
                   ++ Zod.issue "dueDate" du ++ Zod.issue "priority" p)
      end
  end.

Definition updateTodoSchema (b : Body) : Parsed UpdateInput :=
  match b with
  | BNotObject => Invalid [""%string]
  | BObject f =>
      let t := Zod.optional (Zod.string_between 1 200) (r_title f) in
      let d := Zod.optional (Zod.string_between 0 2000) (r_description f) in
      let s := Zod.optional Zod.status_literal (r_status f) in
      let du := Zod.optional_nullable (Zod.datetime is_datetime) (r_dueDate f) in
      let p := Zod.optional_nullable Zod.priority_literal (r_priority f) in
      match t, d, s, du, p with
      | Some t', Some d', Some s', Some du', Some p' =>
          Valid (mkUpdateInput t' d' s' du' p')
      | _, _, _, _, _ =>
          Invalid (Zod.issue "title" t ++ Zod.issue "description" d
                   ++ Zod.issue "status" s ++ Zod.issue "dueDate" du
                   ++ Zod.issue "priority" p)
      end
  end.

(** [createTodoSchema.extend({ status: updateTodoSchema.shape.status.default('pending') })] *)
Definition replaceTodoSchema (f : RawBody) : Parsed ReplaceInput :=
  let t := Zod.string_between 1 200 (r_title f) in
  let d := Zod.optional (Zod.string_between 0 2000) (r_description f) in
  let du := Zod.optional (Zod.datetime is_datetime) (r_dueDate f) in
  let p := Zod.optional Zod.priority_literal (r_priority f) in
  let s := Zod.with_default (Zod.optional Zod.status_literal) pending (r_status f) in
  match t, d, du, p, s with
  | Some t', Some d', Some du', Some p', Some s' =>
      Valid (mkReplaceInput t' d' s' du' p')
  | _, _, _, _, _ =>
      Invalid (Zod.issue "title" t ++ Zod.issue "description" d
               ++ Zod.issue "dueDate" du ++ Zod.issue "priority" p
               ++ Zod.issue "status" s)
  end.

(** The query schema works on [req.query]. *)
Definition q_string (v : option QueryParam) : option (option string) :=
  match v with
  | None => Some None
  | Some x => Some <$> as_string x
  end.

Definition q_status_literal (v : option QueryParam)
  : option (option TodoStatus) :=
  match v with
  | None => Some None
  | Some x => Some <$> (as_string x ≫= Zod.status_of_string)
  end.

(** [z.coerce.number().int().min(lo).max(hi).optional()]; [hi = None] when
    the schema has no [.max]. *)
Definition q_int (lo : Z) (hi : option Z) (v : option QueryParam)
  : option (option Z) :=
  match v with
  | None => Some None
  | Some x =>
      match coerce_int x with
      | Some n =>
          if (lo <=? n) && match hi with Some h => n <=? h | None => true end
          then Some (Some n) else None
      | None => None
      end
  end.

Definition sortBy_of_string (s : string) : option SortBy :=
  if String.eqb s "createdAt" then Some SortCreatedAt
  else if String.eqb s "updatedAt" then Some SortUpdatedAt
  else if String.eqb s "dueDate" then Some SortDueDate
  else if String.eqb s "priority" then Some SortPriority
  else None.

Definition order_of_string (s : string) : option Order :=
  if String.eqb s "asc" then Some asc
  else if String.eqb s "desc" then Some desc
  else None.

Definition q_enum {A} (of_string : string -> option A)
    (v : option QueryParam) : option (option A) :=
  match v with
  | None => Some None
  | Some x => Some <$> (as_string x ≫= of_string)
  end.

Record RawQuery := mkRawQuery {
  rq_q : option QueryParam;
  rq_status : option QueryParam;
  rq_priority : option QueryParam;
  rq_sortBy : option QueryParam;
  rq_order : option QueryParam;
  rq_page : option QueryParam;
  rq_pageSize : option QueryParam
}.

Definition listQuerySchema (r : RawQuery) : Parsed ListQuery :=
  let q := q_string (rq_q r) in
  let s := q_status_literal (rq_status r) in
  let p := q_int 1 (Some 3) (rq_priority r) in
  let sb := q_enum sortBy_of_string (rq_sortBy r) in
  let o := q_enum order_of_string (rq_order r) in
  let pg := q_int 1 None (rq_page r) in
  let ps := q_int 1 (Some 100) (rq_pageSize r) in
  match q, s, p, sb, o, pg, ps with
  | Some q', Some s', Some p', Some sb', Some o', Some pg', Some ps' =>
      Valid (mkListQuery q' s' p' sb' o' pg' ps')
  | _, _, _, _, _, _, _ =>
      Invalid (Zod.issue "q" q ++ Zod.issue "status" s
               ++ Zod.issue "priority" p ++ Zod.issue "sortBy" sb
               ++ Zod.issue "order" o ++ Zod.issue "page" pg
               ++ Zod.issue "pageSize" ps)
  end.

Definition has_id (i : string) (t : Todo) : bool := String.eqb (id t) i.

(** *** GET /todos *)

Definition get_field (sortBy : SortBy) (t : Todo) : JsValue :=
  match sortBy with
  | SortCreatedAt => JString (createdAt t)
  | SortUpdatedAt => JString (updatedAt t)
  | SortDueDate => from_option JString JUndefined (dueDate t)
  | SortPriority => from_option JNumber JUndefined (priority t)
  end.

(** [v == null] *)
Definition is_nullish (v : JsValue) : bool :=
  match v with
  | JUndefined => true
  | _ => false
  end.

(** [av - bv]; the comparator subtracts only when both are priorities. *)
Definition js_minus (av bv : JsValue) : Z :=
  match av, bv with
  | JNumber x, JNumber y => x - y
  | _, _ => 0
  end.

(** [av < bv] on two values of the same property. *)
Definition js_lt (av bv : JsValue) : bool :=
  match av, bv with
  | JString x, JString y => Js.str_lt x y
  | JNumber x, JNumber y => x <? y
  | _, _ => false
  end.

Definition is_priority (sortBy : SortBy) : bool :=
  match sortBy with
  | SortPriority => true
  | _ => false
  end.

Definition comparator (sortBy : SortBy) (order : Order) (a b : Todo) : Z :=
  let dir := match order with asc => 1 | desc => -1 end in
  let av := get_field sortBy a in
  let bv := get_field sortBy b in
  if is_nullish av && is_nullish bv then 0
  else if is_nullish av then 1
  else if is_nullish bv then -1
  else if is_priority sortBy then js_minus av bv * dir
  else (if js_lt av bv then -1 else if js_lt bv av then 1 else 0) * dir.

Definition matches_q (needle : string) (t : Todo) : bool :=
  Js.includes (toLowerCase (title t)) needle
  || Js.includes (toLowerCase (default ""%string (description t))) needle.

(** Lines 27 to 37: the copy of the store and the three filters.  An empty
    [q] and a zero [priority] are falsy and filter nothing. *)
Definition filtered (parsed : ListQuery) (todos : Store) : list Todo :=
  let result := todos in
  let result :=
    match q_q parsed with
    | Some q =>
        if String.eqb q "" then result
        else List.filter (matches_q (toLowerCase q)) result
    | None => result
    end in
  let result :=
    match q_status parsed with
    | Some s => List.filter (fun t => TodoStatus_eqb (status t) s) result
    | None => result
    end in
  match q_priority parsed with
  | Some p =>
      if p =? 0 then result
      else List.filter
             (fun t => from_option (Z.eqb p) false (priority t)) result
  | None => result
  end.

Definition q_sortBy_or_default (parsed : ListQuery) : SortBy :=
  default SortCreatedAt (q_sortBy parsed).
Definition q_order_or_default (parsed : ListQuery) : Order :=
  default desc (q_order parsed).
Definition q_page_or_default (parsed : ListQuery) : Z :=
  default 1 (q_page parsed).
Definition q_pageSize_or_default (parsed : ListQuery) : Z :=
  default 20 (q_pageSize parsed).

(** Line 39: [result.sort(...)]. *)
Definition sorted (parsed : ListQuery) (todos : Store) : list Todo :=
  Js.sort (comparator (q_sortBy_or_default parsed) (q_order_or_default parsed))
          (filtered parsed todos).

(** Lines 54 to 58. *)
Definition query (parsed : ListQuery) (todos : Store) : Envelope :=
  let page := q_page_or_default parsed in
  let pageSize := q_pageSize_or_default parsed in
  let result := sorted parsed todos in
  let total := Z.of_nat (length result) in
  let start := (page - 1) * pageSize in
  let data := Js.slice result start (start + pageSize) in
  mkEnvelope data page pageSize total (Js.ceil_div total pageSize).

(** The same query asking for page [p]. *)
Definition with_page (p : Z) (parsed : ListQuery) : ListQuery :=
  mkListQuery (q_q parsed) (q_status parsed) (q_priority parsed)
              (q_sortBy parsed) (q_order parsed) (Some p) (q_pageSize parsed).

Definition get_todos (rq : RawQuery) (todos : Store) : Response * Store :=
  match listQuerySchema rq with
  | Invalid issues => (validation_error issues, todos)
  | Valid parsed => (json (EnvelopeJson (query parsed todos)), todos)
  end.

(** *** POST /todos *)

Definition post_todos (now uuid : string) (body : Body) (todos : Store)
  : Response * Store :=
  match createTodoSchema body with
  | Invalid issues => (validation_error issues, todos)
  | Valid input =>
      let todo := {| id := uuid;
                     title := c_title input;
                     description := c_description input;
                     status := pending;
                     createdAt := now;
                     updatedAt := now;
                     dueDate := c_dueDate input;
                     priority := c_priority input |} in
      (mkResponse 201 (TodoJson todo), todos ++ [todo])
  end.

(** *** GET /todos/:id *)

Definition get_todo (i : string) (todos : Store) : Response * Store :=
  match List.find (has_id i) todos with
  | None => (not_found, todos)
  | Some todo => (json (TodoJson todo), todos)
  end.

(** *** PATCH /todos/:id *)

(** Lines 102 to 108.  The spread of [patch] overwrites the properties the
    parsed patch owns; [dueDate], [priority] and [updatedAt] are then
    written explicitly. *)
Definition merge (now : string) (current : Todo) (patch : UpdateInput) : Todo :=
  {| id := id current;
     title := default (title current) (u_title patch);
     description :=
       match u_description patch with
       | Some d => Some d
       | None => description current
       end;
     status := default (status current) (u_status patch);
     createdAt := createdAt current;
     updatedAt := now;
     dueDate :=
       match u_dueDate patch with
       | Null => None
       | Value d => Some d
       | Absent => dueDate current
       end;
     priority :=
       match u_priority patch with
       | Null => None
       | Value p => Some p
       | Absent => None
       end |}.

Definition patch_todo (now : string) (i : string) (body : Body) (todos : Store)
  : Response * Store :=
  let idx := Js.findIndex (has_id i) todos in
  if idx =? -1 then (not_found, todos)
  else
    match updateTodoSchema body with
    | Invalid issues => (validation_error issues, todos)
    | Valid patch =>
        match Js.at_index todos idx with
        | None => (internal_error, todos)
        | Some current =>
            let updated := merge now current patch in
            (json (TodoJson updated), Js.set_index todos idx updated)
        end
    end.

(** *** PUT /todos/:id *)

(** [{ ...req.body }] and the default for a missing [status] key. *)
Definition put_body (body : Body) : RawBody :=
  let f := match body with
           | BObject f => f
           | BNotObject => mkRawBody RAbsent RAbsent RAbsent RAbsent RAbsent
           end in
  match r_status f with
  | RAbsent => mkRawBody (r_title f) (r_description f) (RString "pending")
                         (r_dueDate f) (r_priority f)
  | _ => f
  end.

Definition put_todo (now : string) (i : string) (body : Body) (todos : Store)
  : Response * Store :=
  match replaceTodoSchema (put_body body) with
  | Invalid issues => (validation_error issues, todos)
  | Valid createChecked =>
      let idx := Js.findIndex (has_id i) todos in
      let replacement (the_id the_createdAt : string) :=
        {| id := the_id;
           title := p_title createChecked;
           description := p_description createChecked;
           status := p_status createChecked;
           createdAt := the_createdAt;
           updatedAt := now;
           dueDate := p_dueDate createChecked;
           priority := p_priority createChecked |} in
      if idx =? -1 then
        let r := replacement i now in
        (mkResponse 201 (TodoJson r), todos ++ [r])
      else
        match Js.at_index todos idx with
        | None => (internal_error, todos)
        | Some old =>
            let r := replacement (id old) (createdAt old) in
            (mkResponse 200 (TodoJson r), Js.set_index todos idx r)
        end
  end.

(** *** DELETE /todos/:id *)

Definition delete_todo (i : string) (todos : Store) : Response * Store :=
  let idx := Js.findIndex (has_id i) todos in
  if idx =? -1 then (not_found, todos)
  else
    let '(removed, rest) := Js.splice1 todos idx in
    (json (from_option TodoJson UndefinedJson (head removed)), rest).

(** *** POST /todos/:id/done and /todos/:id/pending *)

Definition set_status (s : TodoStatus) (now : string) (i : string)
    (todos : Store) : Response * Store :=
  match Js.find_from (has_id i) todos 0 with
  | None => (not_found, todos)
  | Some n =>
      match todos !! n with
      | None => (not_found, todos)
      | Some todo =>
          let todo := {| id := id todo;
                         title := title todo;
                         description := description todo;
                         status := s;
                         createdAt := createdAt todo;
                         updatedAt := now;
                         dueDate := dueDate todo;
                         priority := priority todo |} in
          (json (TodoJson todo), <[n := todo]> todos)
      end
  end.

Definition post_done := set_status done.
Definition post_pending := set_status pending.

(** *** The service as a transition system *)

Inductive Request :=
| GET_todos (rq : RawQuery)
| POST_todos (body : Body)
| GET_todo (i : string)
| PATCH_todo (i : string) (body : Body)
| PUT_todo (i : string) (body : Body)
| DELETE_todo (i : string)
| POST_done (i : string)
| POST_pending (i : string).

(** One request, served at the instant [now]; [uuid] is what [uuid()]
    returns if the handler calls it. *)
Definition handle (now uuid : string) (r : Request) (todos : Store)
  : Response * Store :=
  match r with
  | GET_todos rq => get_todos rq todos
  | POST_todos body => post_todos now uuid body todos
  | GET_todo i => get_todo i todos
  | PATCH_todo i body => patch_todo now i body todos
  | PUT_todo i body => put_todo now i body todos
  | DELETE_todo i => delete_todo i todos
  | POST_done i => post_done now i todos
  | POST_pending i => post_pending now i todos
  end.

(** Time stamps are compared as the list endpoint compares them: as
    strings. *)
Definition time_le (a b : string) : Prop := String.leb a b = true.

Definition id_free (i : string) (todos : Store) : Prop :=
  Forall (fun t => id t <> i) todos.

(** The first record with id [i] is [t], at index [n]. *)
Definition first_at (i : string) (todos : Store) (n : nat) (t : Todo) : Prop :=
  todos !! n = Some t /\ id t = i
  /\ forall m u, (m < n)%nat -> todos !! m = Some u -> id u <> i.

Definition ids_unique (todos : Store) : Prop := NoDup (id <$> todos).

(** [reachable c todos]: the store holds [todos] after some sequence of
    requests, the last clock reading being [c].  The clock is monotone
    (no reading is below an earlier one) and [uuid()] never returns an id
    that is in use. *)
Inductive reachable : string -> Store -> Prop :=
| reachable_start c : reachable c []
| reachable_request c todos now uuid r :
    reachable c todos ->
    time_le c now ->
    id_free uuid todos ->
    reachable now (handle now uuid r todos).2.

(** The four ways a request can change the store: not at all, by
    appending a record stamped [now] under an unused id, by overwriting a
    record with one of the same id and creation time stamped [now], or by
    removing a record. *)
Inductive store_change (now : string) (todos : Store) : Store -> Prop :=
| change_none : store_change now todos todos
| change_append t :
    createdAt t = now -> updatedAt t = now -> id_free (id t) todos ->
    store_change now todos (todos ++ [t])
| change_write n t t' :
    todos !! n = Some t ->
    id t' = id t -> createdAt t' = createdAt t -> updatedAt t' = now ->
    store_change now todos (<[n := t']> todos)
| change_delete n : store_change now todos (delete n todos).

(** The time stamps of a store are in order and not after the clock
    reading [c]. *)
Definition stamps_ok (c : string) (todos : Store) : Prop :=
  Forall (fun t => time_le (createdAt t) (updatedAt t)
                   /\ time_le (updatedAt t) c) todos.

(** The requests that write a record and answer with it. *)
Definition writes_record (r : Request) : bool :=
  match r with
  | POST_todos _ | PATCH_todo _ _ | PUT_todo _ _
  | POST_done _ | POST_pending _ => true
  | GET_todos _ | GET_todo _ | DELETE_todo _ => false
  end.

Definition is_create (r : Request) : bool :=
  match r with
  | POST_todos _ => true
  | _ => false
  end.

End Service.

Arguments POST_todos {QueryParam} body.
Arguments GET_todo {QueryParam} i.
Arguments PATCH_todo {QueryParam} i body.
Arguments PUT_todo {QueryParam} i body.
Arguments DELETE_todo {QueryParam} i.
Arguments POST_done {QueryParam} i.
Arguments POST_pending {QueryParam} i.
Arguments writes_record {QueryParam} r.
Arguments is_create {QueryParam} r.

(** ** The list endpoint over a heap

    [GET /todos] is the one handler that builds new arrays from the store and
    sorts an array in place.  Here arrays and records are heap objects, an
    array holds references to records, and [[...todos]], [filter] and [slice]
    allocate, while [sort] writes the array it is called on. *)

Module Heap.

Definition ref := positive.

Record heap := mkHeap {
  objects : gmap ref Todo;
  arrays : gmap ref (list ref)
}.

(** A computation reads and writes the heap, or gets stuck on a dangling
    reference. *)
Definition M (A : Type) : Type := heap -> option (A * heap).

Definition ret {A} (a : A) : M A := fun h => Some (a, h).

Definition bind {A B} (m : M A) (k : A -> M B) : M B :=
  fun h =>
    match m h with
    | Some (a, h') => k a h'
    | None => None
    end.

Notation "x '<~' m ';;' k" := (bind m (fun x => k))
  (at level 100, m at next level, right associativity).

Definition get_array (a : ref) : M (list ref) :=
  fun h => (fun l => (l, h)) <$> arrays h !! a.

Definition new_array (l : list ref) : M ref :=
  fun h =>
    let a := fresh (dom (arrays h)) in
    Some (a, mkHeap (objects h) (<[a := l]> (arrays h))).

Definition set_array (a : ref) (l : list ref) : M unit :=
  fun h =>
    match arrays h !! a with
    | Some _ => Some (tt, mkHeap (objects h) (<[a := l]> (arrays h)))
    | None => None
    end.

Definition get_object (r : ref) : M Todo :=
  fun h => (fun t => (t, h)) <$> objects h !! r.

Fixpoint get_objects (rs : list ref) : M (list Todo) :=
  match rs with
  | [] => ret []
  | r :: rest =>
      t <~ get_object r ;;
      ts <~ get_objects rest ;;
      ret (t :: ts)
  end.

(** [[...a]] *)
Definition spread (a : ref) : M ref :=
  l <~ get_array a ;;
  new_array l.

(** [a.filter(p)], for a callback that only reads its argument. *)
Definition filter (p : Todo -> bool) (a : ref) : M ref :=
  l <~ get_array a ;;
  ts <~ get_objects l ;;
  new_array (List.filter (fun rt => p rt.2) (zip l ts)).*1.

(** [a.sort(cmp)], for a callback that only reads its arguments: the
    references of [a] are rearranged in place. *)
Definition sort (cmp : Todo -> Todo -> Z) (a : ref) : M ref :=
  l <~ get_array a ;;
  ts <~ get_objects l ;;
  _ <~ set_array a (Js.sort (fun x y => cmp x.2 y.2) (zip l ts)).*1 ;;
  ret a.

(** [a.length] *)
Definition length (a : ref) : M Z :=
  l <~ get_array a ;;
  ret (Z.of_nat (List.length l)).

(** [a.slice(start, end)] *)
Definition slice (a : ref) (start end_ : Z) : M ref :=
  l <~ get_array a ;;
  new_array (Js.slice l start end_).

(** What [res.json] writes for an array of records. *)
Definition stringify (a : ref) : M (list Todo) :=
  l <~ get_array a ;;
  get_objects l.

Section Handler.
Variable toLowerCase : string -> string.
Variable QueryParam : Type.
Variable as_string : QueryParam -> option string.
Variable coerce_int : QueryParam -> option Z.

(** The handler of [GET /todos]; [todos] is the module-level array. *)
Definition get_todos (todos : ref) (rq : RawQuery QueryParam) : M Response :=
  match listQuerySchema QueryParam as_string coerce_int rq with
  | Invalid issues => ret (validation_error issues)
  | Valid parsed =>
      let sortBy := q_sortBy_or_default parsed in
      let order := q_order_or_default parsed in
      let page := q_page_or_default parsed in
      let pageSize := q_pageSize_or_default parsed in
      result <~ spread todos ;;
      result <~ match q_q parsed with
                | Some q =>
                    if String.eqb q "" then ret result
                    else filter (matches_q toLowerCase (toLowerCase q)) result
                | None => ret result
                end ;;
      result <~ match q_status parsed with
                | Some s =>
                    filter (fun t => TodoStatus_eqb (status t) s) result
                | None => ret result
                end ;;
      result <~ match q_priority parsed with
                | Some p =>
                    if p =? 0 then ret result
                    else filter
                           (fun t => from_option (Z.eqb p) false (priority t))
                           result
                | None => ret result
                end ;;
      _ <~ sort (comparator sortBy order) result ;;
      total <~ length result ;;
      let start := (page - 1) * pageSize in
      d <~ slice result start (start + pageSize) ;;
      data <~ stringify d ;;
      ret (json (EnvelopeJson
                   (mkEnvelope data page pageSize total
                               (Js.ceil_div total pageSize))))
  end.
End Handler.

(** The store at [todos] holds the records [ts]. *)
Definition holds (h : heap) (todos : ref) (ts : list Todo) : Prop :=
  exists l, arrays h !! todos = Some l /\ Forall2 (fun r t => objects h !! r = Some t) l ts.

End Heap.

(** ** Vocabulary of the statements *)

(** The three-way test of line 51 is the sign of the comparison. *)
Definition sign_of (c : comparison) : Z :=
  match c with
  | Lt => -1
  | Eq => 0
  | Gt => 1
  end.

(** What [comparator sortBy order a b <= 0] says about the two keys. *)
Definition key_le (order : Order) (av bv : JsValue) : Prop :=
  match av, bv with
  | JUndefined, JUndefined => True
  | JUndefined, _ => False
  | _, JUndefined => True
  | JNumber x, JNumber y =>
      match order with asc => x <= y | desc => y <= x end
  | JString x, JString y =>
      match order with
      | asc => String.leb x y = true
      | desc => String.leb y x = true
      end
  | _, _ => True
  end.

(** The keys of one sort field all have one type. *)
Definition same_kind (av bv : JsValue) : Prop :=
  match av, bv with
  | JString _, JNumber _ | JNumber _, JString _ => False
  | _, _ => True
  end.

(** The reference [r] leads to the record [t]. *)
Definition points_to (h : Heap.heap) (r : Heap.ref) (t : Todo) : Prop :=
  Heap.objects h !! r = Some t.

(** [untouched h0 h]: since the heap was [h0], no record and no array of
    [h0] has been written. *)
Definition untouched (h0 h : Heap.heap) : Prop :=
  Heap.objects h = Heap.objects h0
  /\ forall a, a ∈ dom (Heap.arrays h0) ->
               Heap.arrays h !! a = Heap.arrays h0 !! a.

(** One stage of the pipeline of [GET /todos]: [h0] is untouched, and
    [result] is an array allocated since [h0], holding references to the
    records [ts]. *)
Definition stage (h0 h : Heap.heap) (result : Heap.ref) (ts : list Todo)
  : Prop :=
  untouched h0 h
  /\ (result ∉ dom (Heap.arrays h0))
  /\ exists l, Heap.arrays h !! result = Some l /\ Forall2 (points_to h) l ts.

(** [run m h Q]: from the heap [h] the computation [m] does not get stuck,
    and its result and final heap satisfy [Q]. *)
Definition run {A} (m : Heap.M A) (h : Heap.heap)
    (Q : A -> Heap.heap -> Prop) : Prop :=
  exists x h', m h = Some (x, h') /\ Q x h'.

(** The order the list endpoint is asked for, in the words of the
    specification: strings in string order, priorities in numeric order,
    ascending for [asc] and descending for [desc]; a record that lacks the
    field comes after every record that has it, in both directions. *)
Definition strings_in_order (order : Order) (x y : string) : Prop :=
  match order with
  | asc => String.leb x y = true
  | desc => String.leb y x = true
  end.

Definition numbers_in_order (order : Order) (x y : Z) : Prop :=
  match order with
  | asc => x <= y
  | desc => y <= x
  end.

Definition missing_last {A} (in_order : A -> A -> Prop) (x y : option A)
  : Prop :=
  match x, y with
  | None, Some _ => False
  | _, None => True
  | Some u, Some v => in_order u v
  end.

(** [needle] occurs in [hay]. *)
Definition contains (hay needle : string) : Prop :=
  exists pre post, hay = (pre ++ needle ++ post)%string.

(** What a list query asks of a record, in the words of the specification:
    the text [q], if given and not empty, occurs in the title or in the
    description (a missing description counting as empty), both sides
    lower-cased; the status, if given, is the record's; the priority, if
    given (and not 0, which the handler treats as not given), is the
    record's. *)
Definition asked_of (toLowerCase : string -> string) (parsed : ListQuery)
    (t : Todo) : Prop :=
  (forall q, q_q parsed = Some q -> q <> ""%string ->
     contains (toLowerCase (title t)) (toLowerCase q)
     \/ contains (toLowerCase (match description t with
                               | Some d => d
                               | None => ""%string
                               end))
                 (toLowerCase q))
  /\ (forall s, q_status parsed = Some s -> status t = s)
  /\ (forall p, q_priority parsed = Some p -> p <> 0 -> priority t = Some p).

(** The id in the path of a request that addresses one record. *)
Definition target {QueryParam} (r : Request QueryParam) : option string :=
  match r with
  | GET_todo i | PATCH_todo i _ | PUT_todo i _ | DELETE_todo i
  | POST_done i | POST_pending i => Some i
  | GET_todos _ _ | POST_todos _ => None
  end.

Definition is_delete {QueryParam} (r : Request QueryParam) : bool :=
  match r with
  | DELETE_todo _ => true
  | _ => false
  end.

(** What the schemas guarantee of the values they let through. *)
Definition input_valid (is_datetime : string -> bool)
    (t : string) (d du : option string) (p : option Z) : Prop :=
  1 <= Js.str_length t <= 200
  /\ (forall x, d = Some x -> Js.str_length x <= 2000)
  /\ (forall x, du = Some x -> is_datetime x = true)
  /\ (forall x, p = Some x -> x = 1 \/ x = 2 \/ x = 3).

(** What the schemas guarantee of a stored record. *)
Definition record_valid (is_datetime : string -> bool) (t : Todo) : Prop :=
  1 <= Js.str_length (title t) <= 200
  /\ (forall d, description t = Some d -> Js.str_length d <= 2000)
  /\ (forall d, dueDate t = Some d -> is_datetime d = true)
  /\ (forall p, priority t = Some p -> p = 1 \/ p = 2 \/ p = 3).

(** What validators.ts asks of each property of a body, in its own
    words: a string of bounded length, a date-time string, one of the
    literals; [optional()] also takes a missing property, and
    [optional().nullable()] a missing one or [null]. *)
Definition string_within (lo hi : Z) (r : Raw) : Prop :=
  exists s, r = RString s /\ lo <= Z.of_nat (String.length s) <= hi.

Definition datetime_string (is_datetime : string -> bool) (r : Raw) : Prop :=
  exists s, r = RString s /\ is_datetime s = true.

Definition one_two_three (r : Raw) : Prop :=
  r = RNumber 1 \/ r = RNumber 2 \/ r = RNumber 3.

Definition pending_or_done (r : Raw) : Prop :=
  r = RString "pending" \/ r = RString "done".

Definition absent_or (P : Raw -> Prop) (r : Raw) : Prop :=
  r = RAbsent \/ P r.

Definition absent_null_or (P : Raw -> Prop) (r : Raw) : Prop :=
  r = RAbsent \/ r = RNull \/ P r.

(** Equality of sort keys. *)
Definition JsValue_eqb (a b : JsValue) : bool :=
  match a, b with
  | JUndefined, JUndefined => true
  | JString x, JString y => String.eqb x y
  | JNumber x, JNumber y => x =? y
  | _, _ => false
  end.

(** The records whose sort key is [v]. *)
Definition has_key (sortBy : SortBy) (v : JsValue) (t : Todo) : bool :=
  JsValue_eqb (get_field sortBy t) v.

(** What the three filters of [GET /todos] ask of a record. *)
Definition passes_filters (toLowerCase : string -> string)
    (parsed : ListQuery) (t : Todo) : bool :=
  match q_q parsed with
  | Some q =>
      String.eqb q "" || matches_q toLowerCase (toLowerCase q) t
  | None => true
  end
  && match q_status parsed with
     | Some s => TodoStatus_eqb (status t) s
     | None => true
     end
  && match q_priority parsed with
     | Some p => (p =? 0) || from_option (Z.eqb p) false (priority t)
     | None => true
     end.

(** ** Concrete library functions and records, for the examples *)

Module Sample.
Local Open Scope string_scope.

(** Lower-casing of the letters A to Z. *)
Definition lower_ascii (c : ascii) : ascii :=
  let n := nat_of_ascii c in
  if (65 <=? n)%nat && (n <=? 90)%nat then ascii_of_nat (n + 32) else c.

Fixpoint toLowerCase (s : string) : string :=
  match s with
  | EmptyString => EmptyString
  | String c rest => String (lower_ascii c) (toLowerCase rest)
  end.

(** A date-time test that looks at the shape [....-..-..T........Z] only. *)
Definition is_datetime (s : string) : bool :=
  match String.get 4 s, String.get 7 s, String.get 10 s with
  | Some "-"%char, Some "-"%char, Some "T"%char =>
      String.eqb (String.substring (String.length s - 1) 1 s) "Z"
  | _, _, _ => false
  end.

(** Query parameters that are strings; numbers are read in decimal. *)
Definition QueryParam := string.
Definition as_string (s : QueryParam) : option string := Some s.

Fixpoint digits (s : string) (acc : Z) : option Z :=
  match s with
  | EmptyString => Some acc
  | String c rest =>
      let n := nat_of_ascii c in
      if (48 <=? n)%nat && (n <=? 57)%nat
      then digits rest (10 * acc + Z.of_nat (n - 48))
      else None
  end.

Definition coerce_int (s : QueryParam) : option Z :=
  match s with
  | EmptyString => Some 0
  | _ => digits s 0
  end.

Definition t1 := "2024-01-01T00:00:00.000Z"%string.
Definition t2 := "2024-01-02T00:00:00.000Z"%string.
Definition t3 := "2024-01-03T00:00:00.000Z"%string.

Definition A : Todo :=
  mkTodo "a" "Buy milk" None pending t1 t1 None (Some 1).
Definition B : Todo :=
  mkTodo "b" "Write report" (Some "quarterly") done t2 t2 (Some t3) (Some 3).
Definition C : Todo :=
  mkTodo "c" "Call home" None pending t3 t3 None None.

Definition store : list Todo := [C; B; A].

Definition empty_query : ListQuery :=
  mkListQuery None None None None None None None.

Definition by_priority (o : Order) : ListQuery :=
  mkListQuery None None None (Some SortPriority) (Some o) None None.

Definition paged (p s : Z) : ListQuery :=
  mkListQuery None None None None None (Some p) (Some s).

End Sample.

(** A body that no schema accepts (the title is a number), and one that all
    three accept. *)
Definition bad_body : Body :=
  BObject (mkRawBody (RNumber 5) RAbsent RAbsent RAbsent RAbsent).

Definition good_body : Body :=
  BObject (mkRawBody (RString "Water plants") RAbsent RAbsent
                     (RString Sample.t3) (RNumber 2)).

(** The patch [{ "status": "pending", "dueDate": null }]. *)
Definition patch_body : Body :=
  BObject (mkRawBody RAbsent RAbsent (RString "pending") RNull RAbsent).

Definition patch_input : UpdateInput :=
  mkUpdateInput None None (Some pending) Null Absent.

Definition good_input : ReplaceInput :=
  mkReplaceInput "Water plants" None pending (Some Sample.t3) (Some 2).

(** The store after one [POST /todos] at [t1]. *)
Definition after_create : Store :=
  (handle Sample.is_datetime Sample.toLowerCase Sample.QueryParam
          Sample.as_string Sample.coerce_int
          Sample.t1 "a" (POST_todos good_body) []).2.

(** The store after one [POST /todos] at [t1] followed by
    [POST /todos/a/done] at [t2]. *)
Definition after_done : Store :=
  (handle Sample.is_datetime Sample.toLowerCase Sample.QueryParam
          Sample.as_string Sample.coerce_int
          Sample.t2 "u" (POST_done "a") after_create).2.

(** A heap with two records and the store array. *)
Definition sample_heap : Heap.heap :=
  Heap.mkHeap (<[1%positive := Sample.A]> (<[2%positive := Sample.B]> ∅))
              (<[3%positive := [2%positive; 1%positive]]> ∅).

(** The record [B] after the patch [patch_body] at [t3], and the record of
    [after_create] after [POST /todos/a/done] at [t2]. *)
Definition B_patched : Todo :=
  mkTodo "b" "Write report" (Some "quarterly"%string) pending
         Sample.t2 Sample.t3 None None.

Definition created : Todo :=
  mkTodo "a" "Water plants" None pending Sample.t1 Sample.t1
         (Some Sample.t3) (Some 2).

Definition created_done : Todo :=
  mkTodo "a" "Water plants" None done Sample.t1 Sample.t2
         (Some Sample.t3) (Some 2).

(** The query string without parameters. *)
Definition no_params : RawQuery Sample.QueryParam :=
  mkRawQuery _ None None None None None None None.

(** The handler of the whole service on the concrete library functions. *)
Definition sample_handle :=
  handle Sample.is_datetime Sample.toLowerCase Sample.QueryParam
         Sample.as_string Sample.coerce_int.

(** * Properties *)

(** ** Arrays *)

Section ArrayFacts.
Context {A : Type}.
Implicit Types (p : A -> bool) (l : list A).

Lemma find_from_None p l i :
  Js.find_from p l i = None <-> Forall (fun x => p x = false) l.
Proof.
  revert i; induction l as [|x l IH]; intros i; simpl.
  - split; [constructor | reflexivity].
  - destruct (p x) eqn:Hx.
    + split; [discriminate | inversion 1; congruence].
    + rewrite IH. split; [by constructor | by inversion 1].
Qed.

Lemma find_from_Some p l i n :
  Js.find_from p l i = Some n ->
  exists k x, n = (i + k)%nat /\ l !! k = Some x /\ p x = true
              /\ forall j y, (j < k)%nat -> l !! j = Some y -> p y = false.
Proof.
  revert i; induction l as [|x l IH]; intros i; simpl; [discriminate|].
  destruct (p x) eqn:Hx.
  - intros [= <-]. exists 0%nat, x. repeat split; [lia | done | lia].
  - intros H. destruct (IH _ H) as (k & y & -> & Hk & Hy & Hlt).
    exists (S k), y. repeat split; [lia | done | done |].
    intros [|j] z Hj Hz; simpl in Hz; [congruence|].
    apply (Hlt j); [lia | done].
Qed.

Lemma find_from_first p l k x :
  l !! k = Some x -> p x = true ->
  (forall j y, (j < k)%nat -> l !! j = Some y -> p y = false) ->
  Js.find_from p l 0 = Some k.
Proof.
  intros Hk Hx Hlt.
  destruct (Js.find_from p l 0) as [n|] eqn:E.
  - destruct (find_from_Some _ _ _ _ E) as (k' & y & -> & Hk' & Hy & Hlt').
    simpl. f_equal.
    destruct (Nat.lt_trichotomy k' k) as [Hc|[Hc|Hc]]; [|done|].
    + rewrite (Hlt _ _ Hc Hk') in Hy. discriminate.
    + rewrite (Hlt' _ _ Hc Hk) in Hx. discriminate.
  - apply find_from_None in E.
    rewrite Forall_forall in E.
    assert (p x = false) by (apply E; eapply list_elem_of_lookup_2; eauto).
    congruence.
Qed.

Lemma findIndex_absent p l :
  Forall (fun x => p x = false) l -> Js.findIndex p l = -1.
Proof.
  intros H. unfold Js.findIndex.
  by rewrite (proj2 (find_from_None p l 0) H).
Qed.

Lemma findIndex_first p l k x :
  l !! k = Some x -> p x = true ->
  (forall j y, (j < k)%nat -> l !! j = Some y -> p y = false) ->
  Js.findIndex p l = Z.of_nat k.
Proof.
  intros Hk Hx Hlt. unfold Js.findIndex.
  by rewrite (find_from_first _ _ _ _ Hk Hx Hlt).
Qed.

Lemma at_index_of_nat l (k : nat) : Js.at_index l (Z.of_nat k) = l !! k.
Proof.
  unfold Js.at_index.
  destruct (Z.ltb_spec (Z.of_nat k) 0); [lia|].
  by rewrite Nat2Z.id.
Qed.

Lemma set_index_of_nat l (k : nat) x :
  Js.set_index l (Z.of_nat k) x = <[k := x]> l.
Proof. unfold Js.set_index. by rewrite Nat2Z.id. Qed.

Lemma splice1_of_nat l (k : nat) x :
  l !! k = Some x ->
  Js.splice1 l (Z.of_nat k) = ([x], delete k l).
Proof.
  intros Hk. unfold Js.splice1. rewrite Nat2Z.id. f_equal.
  - rewrite (drop_S _ _ _ Hk). reflexivity.
  - revert k Hk. induction l as [|y l IH]; intros [|k] Hk; simpl in *;
      try done.
    f_equal. by apply IH.
Qed.

(** [slice] between two indices that are in order and not negative. *)
Lemma slice_take_drop l (start count : Z) :
  0 <= start -> 0 <= count ->
  Js.slice l start (start + count)
  = take (Z.to_nat count) (drop (Z.to_nat start) l).
Proof.
  intros Hs Hc. unfold Js.slice.
  destruct (Z.ltb_spec start 0); [lia|].
  destruct (Z.ltb_spec (start + count) 0); [lia|].
  set (len := Z.of_nat (length l)).
  destruct (Z.le_gt_cases len start) as [Hle|Hgt].
  - rewrite !(drop_ge l); [by rewrite !take_nil | lia | lia].
  - rewrite (Z.min_l start len) by lia.
    destruct (Z.le_gt_cases (start + count) len).
    + rewrite Z.min_l by lia. do 2 f_equal. lia.
    + rewrite Z.min_r by lia.
      rewrite !take_ge; [done | rewrite length_drop; lia | rewrite length_drop; lia].
Qed.

(** *** Sorting *)

Lemma sort_insert_Permutation (cmp : A -> A -> Z) x l :
  Permutation (Js.sort_insert cmp x l) (x :: l).
Proof.
  induction l as [|y l IH]; simpl; [done|].
  destruct (0 <? cmp x y); [|done].
  rewrite IH. apply perm_swap.
Qed.

Lemma sort_Permutation (cmp : A -> A -> Z) l :
  Permutation (Js.sort cmp l) l.
Proof.
  induction l as [|x l IH]; simpl; [done|].
  rewrite sort_insert_Permutation. by constructor.
Qed.

Lemma sort_length (cmp : A -> A -> Z) l :
  length (Js.sort cmp l) = length l.
Proof. apply Permutation_length, sort_Permutation. Qed.

Section Consistent.
Variable cmp : A -> A -> Z.
(** A consistent comparator: the two directions agree, and "not above"
    is transitive. *)
Hypothesis cmp_antisym : forall a b, 0 < cmp a b -> cmp b a <= 0.
Hypothesis cmp_trans : forall a b c, cmp a b <= 0 -> cmp b c <= 0 -> cmp a c <= 0.

Let not_above (a b : A) : Prop := cmp a b <= 0.

Lemma sort_insert_sorted x l :
  StronglySorted not_above l ->
  StronglySorted not_above (Js.sort_insert cmp x l).
Proof.
  induction 1 as [|y l Hl IH Hy]; simpl.
  - repeat constructor.
  - destruct (Z.ltb_spec 0 (cmp x y)) as [Hxy|Hxy].
    + constructor; [done|].
      rewrite sort_insert_Permutation. constructor; [|done].
      by apply cmp_antisym.
    + constructor; [by constructor|].
      constructor; [done|].
      eapply Forall_impl; [exact Hy|].
      intros z Hz. by eapply cmp_trans.
Qed.

Lemma sort_sorted l : StronglySorted not_above (Js.sort cmp l).
Proof.
  induction l as [|x l IH]; simpl; [constructor|].
  by apply sort_insert_sorted.
Qed.

Lemma sort_ordered l i j a b :
  (i < j)%nat ->
  Js.sort cmp l !! i = Some a -> Js.sort cmp l !! j = Some b ->
  cmp a b <= 0.
Proof.
  generalize (sort_sorted l). generalize (Js.sort cmp l). clear l.
  intros l Hl. revert i j.
  induction Hl as [|x l Hl IH Hx]; intros i j Hij Hi Hj; [done|].
  destruct j as [|j]; [lia|]. simpl in Hj.
  destruct i as [|i]; simpl in Hi.
  - injection Hi as ->. rewrite Forall_forall in Hx.
    apply Hx. eapply list_elem_of_lookup_2; eauto.
  - apply (IH i j); [lia | done | done].
Qed.
End Consistent.
End ArrayFacts.

(** ** The order on strings *)

Lemma ascii_compare_refl (a : ascii) : Ascii.compare a a = Eq.
Proof. apply N.compare_refl. Qed.

Lemma string_compare_refl (s : string) : String.compare s s = Eq.
Proof. induction s as [|a s IH]; simpl; [done|]. by rewrite ascii_compare_refl. Qed.

Lemma string_compare_Lt_trans (a b c : string) :
  String.compare a b = Lt -> String.compare b c = Lt -> String.compare a c = Lt.
Proof.
  revert b c. induction a as [|x a IH]; intros [|y b] [|z c]; simpl; try done.
  destruct (Ascii.compare x y) eqn:Hxy; try done;
    destruct (Ascii.compare y z) eqn:Hyz; try done.
  - apply Ascii.compare_eq_iff in Hxy, Hyz. subst.
    rewrite ascii_compare_refl. apply IH.
  - apply Ascii.compare_eq_iff in Hxy. subst. by rewrite Hyz.
  - apply Ascii.compare_eq_iff in Hyz. subst. by rewrite Hxy.
  - unfold Ascii.compare in *. rewrite N.compare_lt_iff in Hxy, Hyz.
    assert (H : (N_of_ascii x < N_of_ascii z)%N) by lia.
    apply N.compare_lt_iff in H. by rewrite H.
Qed.

Lemma string_leb_refl (s : string) : String.leb s s = true.
Proof. unfold String.leb. by rewrite string_compare_refl. Qed.

Lemma string_leb_trans (a b c : string) :
  String.leb a b = true -> String.leb b c = true -> String.leb a c = true.
Proof.
  unfold String.leb.
  destruct (String.compare a b) eqn:Hab; [| |done];
    (destruct (String.compare b c) eqn:Hbc; [| |done]); intros _ _.
  - apply String.compare_eq_iff in Hab. subst. by rewrite Hbc.
  - apply String.compare_eq_iff in Hab. subst. by rewrite Hbc.
  - apply String.compare_eq_iff in Hbc. subst. by rewrite Hab.
  - by rewrite (string_compare_Lt_trans _ _ _ Hab Hbc).
Qed.

Lemma three_way_strings (x y : string) :
  (if Js.str_lt x y then -1 else if Js.str_lt y x then 1 else 0)
  = sign_of (String.compare x y).
Proof.
  unfold Js.str_lt, String.ltb. rewrite (String.compare_antisym y x).
  by destruct (String.compare x y).
Qed.

Lemma sign_of_le (x y : string) :
  sign_of (String.compare x y) <= 0 <-> String.leb x y = true.
Proof. unfold String.leb. destruct (String.compare x y); simpl; split; (done || lia). Qed.

Lemma sign_of_ge (x y : string) :
  sign_of (String.compare x y) * -1 <= 0 <-> String.leb y x = true.
Proof.
  unfold String.leb. rewrite (String.compare_antisym y x).
  destruct (String.compare x y); simpl; split; (done || lia).
Qed.

(** ** The comparator of the list endpoint *)

Lemma get_field_same_kind sortBy a b :
  same_kind (get_field sortBy a) (get_field sortBy b).
Proof.
  destruct sortBy; simpl; try done.
  - by destruct (dueDate a), (dueDate b).
  - by destruct (priority a), (priority b).
Qed.

Lemma get_field_number sortBy a n :
  get_field sortBy a = JNumber n -> sortBy = SortPriority.
Proof. destruct sortBy; simpl; try done. by destruct (dueDate a). Qed.

Lemma get_field_string sortBy a s :
  get_field sortBy a = JString s -> is_priority sortBy = false.
Proof. destruct sortBy; simpl; try done. by destruct (priority a). Qed.

Lemma comparator_key_le sortBy order a b :
  comparator sortBy order a b <= 0
  <-> key_le order (get_field sortBy a) (get_field sortBy b).
Proof.
  unfold comparator.
  pose proof (get_field_same_kind sortBy a b) as Hk.
  destruct (get_field sortBy a) as [|x|x] eqn:Ha,
           (get_field sortBy b) as [|y|y] eqn:Hb; simpl in *; try done.
  - rewrite (get_field_string _ _ _ Ha), three_way_strings.
    destruct order; [rewrite Z.mul_1_r; apply sign_of_le | apply sign_of_ge].
  - rewrite (get_field_number _ _ _ Ha). simpl. destruct order; lia.
Qed.

Lemma key_le_total order av bv :
  same_kind av bv -> key_le order av bv \/ key_le order bv av.
Proof.
  destruct av as [|x|x], bv as [|y|y]; simpl; try tauto; intros _.
  - destruct order, (String.leb_total x y); tauto.
  - destruct order; lia.
Qed.

Lemma key_le_trans order av bv cv :
  same_kind av bv -> same_kind bv cv ->
  key_le order av bv -> key_le order bv cv -> key_le order av cv.
Proof.
  destruct av as [|x|x], bv as [|y|y], cv as [|z|z]; simpl; try tauto;
    intros _ _; destruct order; eauto using string_leb_trans; lia.
Qed.

Lemma comparator_antisym sortBy order a b :
  0 < comparator sortBy order a b -> comparator sortBy order b a <= 0.
Proof.
  intros H. rewrite comparator_key_le.
  destruct (key_le_total order (get_field sortBy a) (get_field sortBy b))
    as [Hle|Hle]; [apply get_field_same_kind | | done].
  apply comparator_key_le in Hle. lia.
Qed.

Lemma comparator_trans sortBy order a b c :
  comparator sortBy order a b <= 0 -> comparator sortBy order b c <= 0 ->
  comparator sortBy order a c <= 0.
Proof.
  rewrite !comparator_key_le.
  apply key_le_trans; apply get_field_same_kind.
Qed.

(** ** The list endpoint *)

Section QueryFacts.
Variable toLowerCase : string -> string.

Implicit Types (parsed : ListQuery) (todos : Store).

Lemma sorted_with_page p parsed todos :
  sorted toLowerCase (with_page p parsed) todos = sorted toLowerCase parsed todos.
Proof. reflexivity. Qed.

Lemma sorted_Permutation parsed todos :
  Permutation (sorted toLowerCase parsed todos) (filtered toLowerCase parsed todos).
Proof. apply sort_Permutation. Qed.

Lemma sorted_key_le parsed todos i j a b :
  (i < j)%nat ->
  sorted toLowerCase parsed todos !! i = Some a -> sorted toLowerCase parsed todos !! j = Some b ->
  key_le (q_order_or_default parsed)
         (get_field (q_sortBy_or_default parsed) a)
         (get_field (q_sortBy_or_default parsed) b).
Proof.
  intros Hij Hi Hj. apply comparator_key_le.
  eapply sort_ordered; eauto using comparator_antisym, comparator_trans.
Qed.

(** C2.  The list that [GET /todos] sorts is a rearrangement of the filtered
    records in which, for any two positions [i < j] holding [a] and [b]:
    if [a] lacks the sort field then so does [b] (records without the field
    come after all records with it, whatever the order); if both have a
    priority as sort key, the keys are in numeric order, ascending for
    [asc] and descending for [desc]; if both have a string as sort key
    (createdAt, updatedAt, dueDate), the keys are in string order, in the
    direction asked for.  In particular, when sorting by priority no record
    without a priority comes before a record with one.  Field by field, with
    [createdAt] and [desc] standing in for a [sortBy] and an [order] the
    query leaves out: sorted by [createdAt], the creation times of [a] and
    [b] are in string order; sorted by [updatedAt], their update times;
    sorted by [dueDate], their due dates, a missing one last; sorted by
    [priority], their priorities in numeric order, a missing one last. *)
Theorem sort_puts_missing_last_and_orders_keys parsed todos i j a b :
  (i < j)%nat ->
  sorted toLowerCase parsed todos !! i = Some a ->
  sorted toLowerCase parsed todos !! j = Some b ->
  let sortBy := q_sortBy_or_default parsed in
  let order := q_order_or_default parsed in
  Permutation (sorted toLowerCase parsed todos) (filtered toLowerCase parsed todos)
  /\ (get_field sortBy a = JUndefined -> get_field sortBy b = JUndefined)
  /\ (forall x y, get_field sortBy a = JNumber x ->
                  get_field sortBy b = JNumber y ->
                  sortBy = SortPriority
                  /\ match order with asc => x <= y | desc => y <= x end)
  /\ (forall x y, get_field sortBy a = JString x ->
                  get_field sortBy b = JString y ->
                  sortBy <> SortPriority
                  /\ match order with
                     | asc => String.leb x y = true
                     | desc => String.leb y x = true
                     end)
  /\ (sortBy = SortPriority -> priority a = None -> priority b = None)
  /\ (let asked := match q_order parsed with Some o => o | None => desc end in
      match q_sortBy parsed with
      | Some SortCreatedAt | None =>
          strings_in_order asked (createdAt a) (createdAt b)
      | Some SortUpdatedAt =>
          strings_in_order asked (updatedAt a) (updatedAt b)
      | Some SortDueDate =>
          missing_last (strings_in_order asked) (dueDate a) (dueDate b)
      | Some SortPriority =>
          missing_last (numbers_in_order asked) (priority a) (priority b)
      end).
Proof.
  intros Hij Hi Hj sortBy order.
  pose proof (sorted_key_le _ _ _ _ _ _ Hij Hi Hj) as Hle.
  fold sortBy order in Hle.
  split; [apply sorted_Permutation|].
  split; [|split; [|split; [|split]]].
  - intros Ha. rewrite Ha in Hle. by destruct (get_field sortBy b).
  - intros x y Ha Hb. rewrite Ha, Hb in Hle.
    split; [by eapply get_field_number | done].
  - intros x y Ha Hb. rewrite Ha, Hb in Hle. split; [|done].
    intros E. apply get_field_string in Ha. by rewrite E in Ha.
  - intros E Ha. rewrite E in Hle. simpl in Hle. rewrite Ha in Hle.
    by destruct (priority b).
  - subst sortBy order.
    unfold q_sortBy_or_default, q_order_or_default in Hle.
    destruct (q_sortBy parsed) as [[]|], (q_order parsed) as [[]|];
      simpl in *; try done;
      (destruct (dueDate a), (dueDate b); done)
      || (destruct (priority a), (priority b); done).
Qed.

(** *** Pagination *)

Lemma ceil_div_bounds (a b : Z) :
  0 < b ->
  (Js.ceil_div a b - 1) * b < a <= Js.ceil_div a b * b.
Proof.
  intros Hb. unfold Js.ceil_div.
  pose proof (Z.div_mod (- a) b ltac:(lia)) as Hdm.
  pose proof (Z.mod_pos_bound (- a) b Hb) as Hm.
  nia.
Qed.

Lemma ceil_div_nonneg (a b : Z) : 0 < b -> 0 <= a -> 0 <= Js.ceil_div a b.
Proof. intros Hb Ha. pose proof (ceil_div_bounds a b Hb). nia. Qed.

Lemma filtered_no_filters parsed todos :
  q_q parsed = None -> q_status parsed = None -> q_priority parsed = None ->
  filtered toLowerCase parsed todos = todos.
Proof. unfold filtered. by intros -> -> ->. Qed.

Lemma query_data parsed todos :
  1 <= q_page_or_default parsed -> 0 <= q_pageSize_or_default parsed ->
  data (query toLowerCase parsed todos)
  = take (Z.to_nat (q_pageSize_or_default parsed))
         (drop (Z.to_nat ((q_page_or_default parsed - 1)
                          * q_pageSize_or_default parsed))
               (sorted toLowerCase parsed todos)).
Proof. intros Hp Hs. simpl. apply slice_take_drop; nia. Qed.

(** Consecutive windows of width [w] make up a prefix. *)
Lemma windows_concat {A} (l : list A) (w n : nat) :
  concat (map (fun p => take w (drop (p * w) l)) (seq 0 n)) = take (n * w) l.
Proof.
  induction n as [|n IH]; [done|].
  rewrite seq_S, map_app, concat_app, IH. simpl.
  rewrite app_nil_r, take_take_drop. f_equal. lia.
Qed.

Lemma pages_concat parsed todos (n : nat) :
  0 <= q_pageSize_or_default parsed ->
  concat (map (fun p => data (query toLowerCase (with_page (Z.of_nat p) parsed) todos))
              (seq 1 n))
  = take (n * Z.to_nat (q_pageSize_or_default parsed)) (sorted toLowerCase parsed todos).
Proof.
  intros Hs. rewrite <- windows_concat, <- seq_shift, map_map.
  f_equal. apply map_ext. intros p.
  assert (Hp : q_page_or_default (with_page (Z.of_nat (S p)) parsed)
               = Z.of_nat (S p)) by reflexivity.
  rewrite query_data; [|lia|done].
  rewrite Hp, sorted_with_page.
  change (q_pageSize_or_default (with_page _ parsed))
    with (q_pageSize_or_default parsed).
  do 2 f_equal. nia.
Qed.

(** C3.  For a query with [page >= 1] and [1 <= pageSize <= 100] the
    envelope carries the page and page size asked for; [total] is the
    number of records left by the filters; [data] is the window
    [[(page-1)*pageSize, (page-1)*pageSize + pageSize)] of the sorted
    list; [totalPages] is the ceiling of [total / pageSize] (the least
    number of windows that reach [total]).  Without filters [total] is the
    size of the store.  The windows of two different pages share no
    position, and the [data] of pages 1 to [totalPages], one after the
    other, are the whole sorted list. *)
Theorem query_envelope parsed todos :
  let pg := q_page_or_default parsed in
  let ps := q_pageSize_or_default parsed in
  let e := query toLowerCase parsed todos in
  1 <= pg -> 1 <= ps <= 100 ->
  page e = pg /\ pageSize e = ps
  /\ total e = Z.of_nat (length (filtered toLowerCase parsed todos))
  /\ data e = take (Z.to_nat ps) (drop (Z.to_nat ((pg - 1) * ps))
                                       (sorted toLowerCase parsed todos))
  /\ (totalPages e - 1) * ps < total e <= totalPages e * ps
  /\ (q_q parsed = None -> q_status parsed = None ->
      q_priority parsed = None -> total e = Z.of_nat (length todos))
  /\ (forall p p' n, 1 <= p -> 1 <= p' ->
        (p - 1) * ps <= n < (p - 1) * ps + ps ->
        (p' - 1) * ps <= n < (p' - 1) * ps + ps -> p = p')
  /\ concat (map (fun p => data (query toLowerCase (with_page (Z.of_nat p) parsed) todos))
                 (seq 1 (Z.to_nat (totalPages e))))
     = sorted toLowerCase parsed todos.
Proof.
  intros pg ps e Hpg Hps.
  assert (Htotal : total e = Z.of_nat (length (filtered toLowerCase parsed todos))).
  { simpl. unfold sorted. by rewrite sort_length. }
  assert (Hceil : (totalPages e - 1) * ps < total e <= totalPages e * ps).
  { apply ceil_div_bounds. lia. }
  repeat split; try done; try lia.
  - apply query_data; lia.
  - intros Hq Hst Hpr. rewrite Htotal.
    by rewrite filtered_no_filters.
  - intros p p' n Hp Hp' Hn Hn'. nia.
  - rewrite pages_concat by (fold ps; lia).
    apply take_ge.
    assert (length (sorted toLowerCase parsed todos) = length (filtered toLowerCase parsed todos))
      as -> by apply sort_length.
    assert (0 <= totalPages e) by (apply ceil_div_nonneg; simpl; lia).
    fold ps. nia.
Qed.
End QueryFacts.

(** ** Looking a record up by id *)

Lemma has_id_true i t : has_id i t = true <-> id t = i.
Proof. apply String.eqb_eq. Qed.

Lemma has_id_false i t : has_id i t = false <-> id t <> i.
Proof. apply String.eqb_neq. Qed.

Lemma id_free_has_id i todos :
  id_free i todos <-> Forall (fun t => has_id i t = false) todos.
Proof. apply Forall_iff. intros t. by rewrite has_id_false. Qed.

Lemma find_id_free i todos :
  id_free i todos -> Js.find_from (has_id i) todos 0 = None.
Proof. rewrite id_free_has_id. apply find_from_None. Qed.

Lemma find_first_at i todos n t :
  first_at i todos n t -> Js.find_from (has_id i) todos 0 = Some n.
Proof.
  intros (Hn & Hid & Hlt). eapply find_from_first; eauto.
  - by apply has_id_true.
  - intros m u Hm Hu. apply has_id_false. eauto.
Qed.

Lemma findIndex_id_free i todos :
  id_free i todos -> Js.findIndex (has_id i) todos = -1.
Proof. intros H. unfold Js.findIndex. by rewrite find_id_free. Qed.

Lemma findIndex_first_at i todos n t :
  first_at i todos n t -> Js.findIndex (has_id i) todos = Z.of_nat n.
Proof. intros H. unfold Js.findIndex. by rewrite (find_first_at _ _ _ _ H). Qed.

(** Every id is free or has a first record. *)
Lemma id_free_or_first_at i todos :
  id_free i todos \/ exists n t, first_at i todos n t.
Proof.
  destruct (Js.find_from (has_id i) todos 0) as [n|] eqn:E.
  - right. destruct (find_from_Some _ _ _ _ E) as (k & t & -> & Hk & Ht & Hlt).
    exists k, t. repeat split; [done | by apply has_id_true |].
    intros m u Hm Hu. apply has_id_false. eauto.
  - left. apply id_free_has_id. by apply (find_from_None _ _ 0).
Qed.

Lemma first_at_not_free i todos n t : first_at i todos n t -> ~ id_free i todos.
Proof.
  intros (Hn & Hid & _) Hfree.
  by apply (Forall_lookup_1 _ _ _ _ Hfree Hn).
Qed.

Lemma ids_unique_delete_free i todos n t :
  ids_unique todos -> first_at i todos n t -> id_free i (delete n todos).
Proof.
  intros Hnd (Hn & Hid & _). apply Forall_lookup_2. intros m u Hm Hu.
  assert (Hi : forall k, todos !! k = Some u -> k = n).
  { intros k Hk. unfold ids_unique in Hnd.
    apply (NoDup_lookup _ k n i Hnd); rewrite list_lookup_fmap.
    - rewrite Hk. simpl. congruence.
    - rewrite Hn. simpl. congruence. }
  destruct (Nat.lt_ge_cases m n) as [Hlt|Hge].
  - rewrite list_lookup_delete_lt in Hm by done. apply Hi in Hm. lia.
  - rewrite list_lookup_delete_ge in Hm by done. apply Hi in Hm. lia.
Qed.

(** ** The handlers that look a record up by id *)

Section HandlerFacts.
Variable is_datetime : string -> bool.
Implicit Types (todos : Store) (body : Body) (now i : string).

Lemma patch_todo_found now i body todos n current patch :
  first_at i todos n current ->
  updateTodoSchema is_datetime body = Valid patch ->
  patch_todo is_datetime now i body todos
  = (json (TodoJson (merge now current patch)),
     <[n := merge now current patch]> todos).
Proof.
  intros Hf Hv. unfold patch_todo.
  rewrite (findIndex_first_at _ _ _ _ Hf), Hv.
  destruct (Z.eqb_spec (Z.of_nat n) (-1)); [lia|].
  rewrite at_index_of_nat, (proj1 Hf).
  by rewrite set_index_of_nat.
Qed.

Lemma patch_todo_rejected now i body todos n current issues :
  first_at i todos n current ->
  updateTodoSchema is_datetime body = Invalid issues ->
  patch_todo is_datetime now i body todos = (validation_error issues, todos).
Proof.
  intros Hf Hv. unfold patch_todo.
  rewrite (findIndex_first_at _ _ _ _ Hf), Hv.
  by destruct (Z.eqb_spec (Z.of_nat n) (-1)); [lia|].
Qed.

Lemma patch_todo_not_found now i body todos :
  id_free i todos ->
  patch_todo is_datetime now i body todos = (not_found, todos).
Proof.
  intros Hfree. unfold patch_todo.
  by rewrite (findIndex_id_free _ _ Hfree).
Qed.

(** C9.  When no record has the id, [PATCH /todos/:id] answers 404
    "Not found" and leaves the store alone, whatever the body is: the
    lookup comes before the body is parsed. *)
Theorem patch_unknown_id_not_found now i body todos :
  id_free i todos ->
  patch_todo is_datetime now i body todos = (not_found, todos).
Proof.
  intros Hfree. unfold patch_todo.
  assert (Hidx : Js.findIndex (has_id i) todos = -1)
    by (apply findIndex_absent; by apply id_free_has_id).
  rewrite Hidx. reflexivity.
Qed.

(** What the merge of lines 102 to 108 does to each property. *)
Lemma merge_fields now current patch :
  let updated := merge now current patch in
  title updated = default (title current) (u_title patch)
  /\ description updated
     = from_option Some (description current) (u_description patch)
  /\ status updated = default (status current) (u_status patch)
  /\ (forall d, u_dueDate patch = Value d -> dueDate updated = Some d)
  /\ (u_dueDate patch = Null -> dueDate updated = None)
  /\ (u_dueDate patch = Absent -> dueDate updated = dueDate current)
  /\ (forall p, u_priority patch = Value p -> priority updated = Some p)
  /\ (u_priority patch = Null -> priority updated = None)
  /\ (u_priority patch = Absent -> priority updated = None).
Proof.
  destruct patch as [t d s du p]; simpl.
  repeat split; intros; subst; done.
Qed.

(** C1, at the input where the handler departs from it.  The store holds
    one record with priority 1; the patch [{ "title": "Buy oat milk" }]
    is valid and names neither [dueDate] nor [priority].  The answer is
    200 with the new title, and the record stored and returned has no
    priority any more. *)
Theorem patch_without_priority_drops_priority :
  let body := BObject (mkRawBody (RString "Buy oat milk")
                                 RAbsent RAbsent RAbsent RAbsent) in
  let updated := mkTodo "a" "Buy oat milk" None pending
                        Sample.t1 Sample.t2 None None in
  priority Sample.A = Some 1
  /\ updateTodoSchema is_datetime body
     = Valid (mkUpdateInput (Some "Buy oat milk"%string) None None Absent Absent)
  /\ patch_todo is_datetime Sample.t2 "a" body [Sample.A]
     = (json (TodoJson updated), [updated])
  /\ priority updated = None.
Proof. by repeat split. Qed.

(** *** PUT *)

Lemma put_todo_created now i body todos input :
  replaceTodoSchema is_datetime (put_body body) = Valid input ->
  id_free i todos ->
  let r := mkTodo i (p_title input) (p_description input) (p_status input)
                  now now (p_dueDate input) (p_priority input) in
  put_todo is_datetime now i body todos
  = (mkResponse 201 (TodoJson r), todos ++ [r]).
Proof.
  intros Hv Hfree. unfold put_todo.
  by rewrite Hv, (findIndex_id_free _ _ Hfree).
Qed.

Lemma put_todo_overwritten now i body todos input n old :
  replaceTodoSchema is_datetime (put_body body) = Valid input ->
  first_at i todos n old ->
  let r := mkTodo i (p_title input) (p_description input) (p_status input)
                  (createdAt old) now (p_dueDate input) (p_priority input) in
  put_todo is_datetime now i body todos
  = (mkResponse 200 (TodoJson r), <[n := r]> todos).
Proof.
  intros Hv Hf. unfold put_todo.
  rewrite Hv, (findIndex_first_at _ _ _ _ Hf).
  destruct (Z.eqb_spec (Z.of_nat n) (-1)); [lia|].
  rewrite at_index_of_nat, (proj1 Hf), set_index_of_nat.
  destruct Hf as (_ & <- & _). reflexivity.
Qed.

(** C4.  For a body that the replace schema accepts: when no record has
    the id, [PUT /todos/:id] appends a record with that id, with creation
    and update time both the time of the request, and answers 201; when a
    record has the id, it is overwritten in place by a record with the
    same id and creation time, every other property taken from the body,
    update time the time of the request, and the answer is 200. *)
Theorem put_creates_or_overwrites now i body todos input :
  replaceTodoSchema is_datetime (put_body body) = Valid input ->
  let replacement the_createdAt :=
    mkTodo i (p_title input) (p_description input) (p_status input)
           the_createdAt now (p_dueDate input) (p_priority input) in
  (id_free i todos ->
   put_todo is_datetime now i body todos
   = (mkResponse 201 (TodoJson (replacement now)),
      todos ++ [replacement now]))
  /\ (forall n old, first_at i todos n old ->
       put_todo is_datetime now i body todos
       = (mkResponse 200 (TodoJson (replacement (createdAt old))),
          <[n := replacement (createdAt old)]> todos)).
Proof.
  intros Hv replacement. split.
  - intros Hfree. by apply put_todo_created.
  - intros n old Hf. by apply put_todo_overwritten.
Qed.

(** *** DELETE and the status shortcuts *)

Lemma delete_todo_found i todos n t :
  first_at i todos n t ->
  delete_todo i todos = (json (TodoJson t), delete n todos).
Proof.
  intros Hf. unfold delete_todo.
  rewrite (findIndex_first_at _ _ _ _ Hf).
  destruct (Z.eqb_spec (Z.of_nat n) (-1)); [lia|].
  by rewrite (splice1_of_nat _ _ _ (proj1 Hf)).
Qed.

Lemma delete_todo_not_found i todos :
  id_free i todos -> delete_todo i todos = (not_found, todos).
Proof.
  intros Hfree. unfold delete_todo.
  by rewrite (findIndex_id_free _ _ Hfree).
Qed.

Lemma set_status_not_found s now i todos :
  id_free i todos -> set_status s now i todos = (not_found, todos).
Proof. intros Hfree. unfold set_status. by rewrite (find_id_free _ _ Hfree). Qed.

Lemma set_status_found s now i todos n t :
  first_at i todos n t ->
  let t' := mkTodo (id t) (title t) (description t) s (createdAt t) now
                   (dueDate t) (priority t) in
  set_status s now i todos = (json (TodoJson t'), <[n := t']> todos).
Proof.
  intros Hf. unfold set_status.
  by rewrite (find_first_at _ _ _ _ Hf), (proj1 Hf).
Qed.

(** C8.  [DELETE /todos/:id] answers 404 and changes nothing when no
    record has the id.  Otherwise it answers 200 with the first record
    that has the id and the store is the old one without the element at
    that record's index; when ids are unique, a second [DELETE] of the
    same id then answers 404. *)
Theorem delete_removes_the_record_once i todos :
  (id_free i todos -> delete_todo i todos = (not_found, todos))
  /\ (forall n t, first_at i todos n t ->
       delete_todo i todos = (json (TodoJson t), delete n todos)
       /\ (ids_unique todos ->
           delete_todo i (delete_todo i todos).2
           = (not_found, delete n todos))).
Proof.
  split; [apply delete_todo_not_found|].
  intros n t Hf. rewrite (delete_todo_found _ _ _ _ Hf).
  split; [done|]. intros Hu. simpl.
  apply delete_todo_not_found. by eapply ids_unique_delete_free.
Qed.

(** C7.  A body that its schema rejects changes nothing: [POST /todos],
    [PATCH /todos/:id] and [PUT /todos/:id] answer 400 with the issues
    ([PATCH] answers 404 instead when no record has the id) and the store
    is the one before the request.  When no record has the id, [PATCH],
    the two status shortcuts and [DELETE] answer 404 and the store is the
    one before the request. *)
Theorem rejected_requests_change_nothing now uuid i body todos issues s :
  (createTodoSchema is_datetime body = Invalid issues ->
   post_todos is_datetime now uuid body todos
   = (validation_error issues, todos))
  /\ (updateTodoSchema is_datetime body = Invalid issues ->
      (patch_todo is_datetime now i body todos).2 = todos
      /\ (~ id_free i todos ->
          (patch_todo is_datetime now i body todos).1
          = validation_error issues))
  /\ (replaceTodoSchema is_datetime (put_body body) = Invalid issues ->
      put_todo is_datetime now i body todos
      = (validation_error issues, todos))
  /\ (id_free i todos ->
      patch_todo is_datetime now i body todos = (not_found, todos)
      /\ set_status s now i todos = (not_found, todos)
      /\ delete_todo i todos = (not_found, todos)).
Proof.
  split; [|split; [|split]].
  - intros Hv. unfold post_todos. by rewrite Hv.
  - intros Hv.
    destruct (id_free_or_first_at i todos) as [Hfree|(n & t & Hf)].
    + rewrite (patch_todo_not_found now i body todos Hfree).
      split; [done|]. by intros [].
    + rewrite (patch_todo_rejected _ _ _ _ _ _ _ Hf Hv). by split.
  - intros Hv. unfold put_todo. by rewrite Hv.
  - intros Hfree. split; [|split].
    + by apply patch_todo_not_found.
    + by apply set_status_not_found.
    + by apply delete_todo_not_found.
Qed.
End HandlerFacts.

(** ** Invariants of the reachable stores *)

Section Invariants.
Variable is_datetime : string -> bool.
Variable toLowerCase : string -> string.
Variable QueryParam : Type.
Variable as_string : QueryParam -> option string.
Variable coerce_int : QueryParam -> option Z.

Local Abbreviation handle :=
  (handle is_datetime toLowerCase QueryParam as_string coerce_int).
Local Abbreviation reachable :=
  (reachable is_datetime toLowerCase QueryParam as_string coerce_int).

Lemma set_status_store_change s now i todos :
  store_change now todos (set_status s now i todos).2.
Proof.
  destruct (id_free_or_first_at i todos) as [Hfree|(n & t & Hf)].
  - rewrite set_status_not_found by done. constructor.
  - rewrite (set_status_found _ _ _ _ _ _ Hf). simpl.
    by eapply change_write; [apply Hf|..].
Qed.

Lemma handle_store_change now uuid r todos :
  id_free uuid todos -> store_change now todos (handle now uuid r todos).2.
Proof.
  intros Hfresh. destruct r as [rq|body|i|i body|i body|i|i|i]; simpl.
  - unfold get_todos. destruct listQuerySchema; constructor.
  - unfold post_todos. destruct createTodoSchema; simpl; by constructor.
  - unfold get_todo. destruct List.find; constructor.
  - destruct (id_free_or_first_at i todos) as [Hfree|(n & t & Hf)].
    + rewrite patch_todo_not_found by done. constructor.
    + destruct (updateTodoSchema is_datetime body) as [patch|issues] eqn:Hv.
      * rewrite (patch_todo_found _ _ _ _ _ _ _ _ Hf Hv). simpl.
        by eapply change_write; [apply Hf|..].
      * rewrite (patch_todo_rejected _ _ _ _ _ _ _ _ Hf Hv). constructor.
  - destruct (replaceTodoSchema is_datetime (put_body body))
      as [input|issues] eqn:Hv.
    + destruct (id_free_or_first_at i todos) as [Hfree|(n & t & Hf)].
      * rewrite (put_todo_created _ now _ _ _ _ Hv Hfree). simpl.
        by constructor.
      * rewrite (put_todo_overwritten _ now _ _ _ _ _ _ Hv Hf). simpl.
        eapply change_write; [apply Hf| |done..].
        simpl. symmetry. apply Hf.
    + unfold put_todo. rewrite Hv. constructor.
  - destruct (id_free_or_first_at i todos) as [Hfree|(n & t & Hf)].
    + rewrite delete_todo_not_found by done. constructor.
    + rewrite (delete_todo_found _ _ _ _ Hf). constructor.
  - apply set_status_store_change.
  - apply set_status_store_change.
Qed.

Lemma time_le_refl a : time_le a a.
Proof. apply string_leb_refl. Qed.

Lemma time_le_trans a b c : time_le a b -> time_le b c -> time_le a c.
Proof. apply string_leb_trans. Qed.

Lemma stamps_ok_later c now todos :
  time_le c now -> stamps_ok c todos -> stamps_ok now todos.
Proof.
  intros Hc Hok. eapply Forall_impl; [exact Hok|].
  intros t [H1 H2]. split; [done | by eapply time_le_trans].
Qed.

Lemma store_change_stamps c now todos todos' :
  store_change now todos todos' -> time_le c now ->
  stamps_ok c todos -> stamps_ok now todos'.
Proof.
  intros Hch Hc Hok.
  pose proof (stamps_ok_later _ _ _ Hc Hok) as Hok'.
  destruct Hch as [|t Hcr Hup _|n t t' Hn _ Hcr Hup|n].
  - done.
  - apply Forall_app. split; [done|]. constructor; [|constructor].
    rewrite Hcr, Hup. split; apply time_le_refl.
  - apply Forall_insert; [done|].
    destruct (Forall_lookup_1 _ _ _ _ Hok Hn) as [H1 H2].
    rewrite Hcr, Hup. split; [|apply time_le_refl].
    eauto using time_le_trans.
  - by apply Forall_delete.
Qed.

Lemma store_change_ids now todos todos' :
  store_change now todos todos' -> ids_unique todos -> ids_unique todos'.
Proof.
  unfold ids_unique.
  intros [|t _ _ Hfree|n t t' Hn Hid _ _|n] Hu.
  - done.
  - rewrite fmap_app. apply NoDup_app. split; [done|]. split.
    + intros x Hx [->|[]%elem_of_nil]%elem_of_cons.
      apply list_elem_of_fmap in Hx as (u & Hu' & Hin).
      by apply (proj1 (Forall_forall _ _) Hfree u Hin).
    + apply NoDup_singleton.
  - rewrite list_fmap_insert, Hid, list_insert_id; [done|].
    by rewrite list_lookup_fmap, Hn.
  - rewrite list_fmap_delete. eapply sublist_NoDup; [done | apply sublist_delete].
Qed.

Lemma reachable_stamps_ok c todos : reachable c todos -> stamps_ok c todos.
Proof.
  induction 1 as [c|c todos now uuid r _ IH Hc Hfresh]; [constructor|].
  eapply store_change_stamps; [by apply handle_store_change|done..].
Qed.

(** C6.  On a reachable store, served at a time [now] not before the last
    clock reading, a valid patch of the stored record [current] answers 200
    with the merged record and stores it in [current]'s place.  The merged
    record has the id and the creation time of [current]; its update time
    is [now], which is not before the update time of [current]. *)
Theorem patch_keeps_id_and_createdAt c now i body todos n current patch :
  reachable c todos ->
  time_le c now ->
  first_at i todos n current ->
  updateTodoSchema is_datetime body = Valid patch ->
  exists updated,
    patch_todo is_datetime now i body todos
    = (json (TodoJson updated), <[n := updated]> todos)
    /\ id updated = id current
    /\ createdAt updated = createdAt current
    /\ updatedAt updated = now
    /\ time_le (updatedAt current) (updatedAt updated).
Proof.
  intros Hr Hclock Hf Hv. exists (merge now current patch).
  split; [by apply patch_todo_found|]. repeat split.
  apply reachable_stamps_ok in Hr.
  destruct (Forall_lookup_1 _ _ _ _ Hr (proj1 Hf)) as [_ Hup].
  by eapply time_le_trans.
Qed.

Lemma reachable_ids_unique c todos : reachable c todos -> ids_unique todos.
Proof.
  induction 1 as [c|c todos now uuid r _ IH Hc Hfresh]; [constructor|].
  eapply store_change_ids; [by apply (handle_store_change now)|done].
Qed.

Lemma elem_of_insert_here (todos : Store) n t t' :
  todos !! n = Some t -> t' ∈ <[n := t']> todos.
Proof.
  intros Hn. apply (list_elem_of_lookup_2 _ n).
  apply list_lookup_insert_eq. by eapply lookup_lt_Some.
Qed.

Lemma set_status_written_record s now i todos c t todos' :
  set_status s now i todos = (mkResponse c (TodoJson t), todos') ->
  updatedAt t = now /\ t ∈ todos'.
Proof.
  intros H. destruct (id_free_or_first_at i todos) as [Hfree|(n & u & Hf)].
  { rewrite set_status_not_found in H by done. discriminate. }
  rewrite (set_status_found _ _ _ _ _ _ Hf) in H.
  injection H as <- <- <-. split; [done|].
  eapply elem_of_insert_here, Hf.
Qed.

(** The record a writing request answers with is the one it stored,
    stamped with the time of the request. *)
Lemma handle_written_record now uuid r todos c t todos' :
  handle now uuid r todos = (mkResponse c (TodoJson t), todos') ->
  writes_record r = true ->
  updatedAt t = now /\ t ∈ todos' /\ (is_create r = true -> createdAt t = now).
Proof.
  destruct r as [rq|body|i|i body|i body|i|i|i]; simpl; try discriminate;
    intros H _.
  - unfold post_todos in H. destruct createTodoSchema; [|discriminate].
    injection H as <- <- <-. split; [done|split; [|done]].
    apply elem_of_app. right. apply list_elem_of_singleton. reflexivity.
  - destruct (id_free_or_first_at i todos) as [Hfree|(n & u & Hf)].
    { rewrite patch_todo_not_found in H by done. discriminate. }
    destruct (updateTodoSchema is_datetime body) as [patch|issues] eqn:Hv.
    + rewrite (patch_todo_found _ _ _ _ _ _ _ _ Hf Hv) in H.
      injection H as <- <- <-. split; [done|split; [|done]].
      eapply elem_of_insert_here, Hf.
    + rewrite (patch_todo_rejected _ _ _ _ _ _ _ _ Hf Hv) in H. discriminate.
  - destruct (replaceTodoSchema is_datetime (put_body body))
      as [input|issues] eqn:Hv.
    + destruct (id_free_or_first_at i todos) as [Hfree|(n & u & Hf)].
      * rewrite (put_todo_created _ now _ _ _ _ Hv Hfree) in H.
        injection H as <- <- <-.
        split; [done|split; [|done]].
        apply elem_of_app. right. apply list_elem_of_singleton. reflexivity.
      * rewrite (put_todo_overwritten _ now _ _ _ _ _ _ Hv Hf) in H.
        injection H as <- <- <-.
        split; [done|split; [|done]]. eapply elem_of_insert_here, Hf.
    + unfold put_todo in H. rewrite Hv in H. discriminate.
  - destruct (set_status_written_record _ _ _ _ _ _ _ H); by repeat split.
  - destruct (set_status_written_record _ _ _ _ _ _ _ H); by repeat split.
Qed.

(** Under a monotone clock the creation time of a stored record is not
    after the time of the next request. *)
Lemma createdAt_not_after_now c now i (todos : Store) n current :
  reachable c todos -> time_le c now -> first_at i todos n current ->
  time_le (createdAt current) now.
Proof.
  intros Hr Hc Hf. apply reachable_stamps_ok in Hr.
  destruct (Forall_lookup_1 _ _ _ _ Hr (proj1 Hf)) as [H1 H2].
  eauto using time_le_trans.
Qed.

(** C5.  In every store reachable from the empty one under a monotone
    clock, every record's update time is not before its creation time.
    Every request that writes a record ([POST /todos], [PATCH], [PUT],
    the two status shortcuts) stores the record it answers with, stamped
    with the time of the request as update time; [POST /todos] stamps the
    creation time with the same instant.

    And the writes do happen.  On a reachable store, at a time [now] not
    before the last clock reading: [POST /todos] with a valid body answers
    201 and appends a record created and updated at [now]; for a stored
    record [current], whose creation time is not after [now], a [PATCH] and
    a [PUT] with a valid body and each of the two status shortcuts answer
    200 and put in its place a record with the creation time of [current]
    and the update time [now] (the shortcuts with the status they stand
    for); a [PUT] with a valid body on an unused id answers 201 and appends
    a record created and updated at [now]. *)
Theorem updatedAt_not_before_createdAt :
  (forall c todos, reachable c todos ->
     Forall (fun t => time_le (createdAt t) (updatedAt t)) todos)
  /\ (forall now uuid r todos c t todos',
        handle now uuid r todos = (mkResponse c (TodoJson t), todos') ->
        writes_record r = true ->
        updatedAt t = now /\ t ∈ todos'
        /\ (is_create r = true -> createdAt t = now))
  /\ (forall c todos now uuid,
        reachable c todos -> time_le c now ->
        (forall body input,
           createTodoSchema is_datetime body = Valid input ->
           exists t,
             handle now uuid (POST_todos body) todos
             = (mkResponse 201 (TodoJson t), todos ++ [t])
             /\ createdAt t = now /\ updatedAt t = now)
        /\ (forall i body input,
              id_free i todos ->
              replaceTodoSchema is_datetime (put_body body) = Valid input ->
              exists t,
                handle now uuid (PUT_todo i body) todos
                = (mkResponse 201 (TodoJson t), todos ++ [t])
                /\ createdAt t = now /\ updatedAt t = now)
        /\ (forall i n current,
              first_at i todos n current ->
              time_le (createdAt current) now
              /\ (forall body patch,
                    updateTodoSchema is_datetime body = Valid patch ->
                    exists t,
                      handle now uuid (PATCH_todo i body) todos
                      = (mkResponse 200 (TodoJson t), <[n := t]> todos)
                      /\ createdAt t = createdAt current
                      /\ updatedAt t = now)
              /\ (forall body input,
                    replaceTodoSchema is_datetime (put_body body)
                    = Valid input ->
                    exists t,
                      handle now uuid (PUT_todo i body) todos
                      = (mkResponse 200 (TodoJson t), <[n := t]> todos)
                      /\ createdAt t = createdAt current
                      /\ updatedAt t = now)
              /\ (exists t,
                    handle now uuid (POST_done i) todos
                    = (mkResponse 200 (TodoJson t), <[n := t]> todos)
                    /\ status t = done
                    /\ createdAt t = createdAt current
                    /\ updatedAt t = now)
              /\ (exists t,
                    handle now uuid (POST_pending i) todos
                    = (mkResponse 200 (TodoJson t), <[n := t]> todos)
                    /\ status t = pending
                    /\ createdAt t = createdAt current
                    /\ updatedAt t = now))).
Proof.
  split; [|split].
  - intros c todos Hr. eapply Forall_impl; [by apply reachable_stamps_ok|].
    by intros t [H _].
  - apply handle_written_record.
  - intros c todos now uuid Hr Hc. split; [|split].
    + intros body input Hv. simpl. unfold post_todos. rewrite Hv.
      eexists. split; [reflexivity|]. by split.
    + intros i body input Hfree Hv. simpl.
      rewrite (put_todo_created _ now _ _ _ _ Hv Hfree).
      eexists. split; [reflexivity|]. by split.
    + intros i n current Hf.
      split; [by eapply createdAt_not_after_now|].
      split; [|split; [|split]].
      * intros body patch Hv. simpl.
        rewrite (patch_todo_found _ _ _ _ _ _ _ _ Hf Hv).
        eexists. split; [reflexivity|]. by split.
      * intros body input Hv. simpl.
        rewrite (put_todo_overwritten _ now _ _ _ _ _ _ Hv Hf).
        eexists. split; [reflexivity|]. by split.
      * simpl. unfold post_done. rewrite (set_status_found _ _ _ _ _ _ Hf).
        eexists. split; [reflexivity|]. by repeat split.
      * simpl. unfold post_pending.
        rewrite (set_status_found _ _ _ _ _ _ Hf).
        eexists. split; [reflexivity|]. by repeat split.
Qed.
End Invariants.

(** ** The list endpoint over the heap *)

Section HeapFacts.
Implicit Types (h : Heap.heap) (a : Heap.ref) (l : list Heap.ref)
               (ts : list Todo) (lts : list (Heap.ref * Todo)).

Lemma bind_Some {A B} (m : Heap.M A) (k : A -> Heap.M B) h x h' :
  m h = Some (x, h') -> Heap.bind m k h = k x h'.
Proof. unfold Heap.bind. by intros ->. Qed.

Lemma get_array_Some h a l :
  Heap.arrays h !! a = Some l -> Heap.get_array a h = Some (l, h).
Proof. unfold Heap.get_array. by intros ->. Qed.

Lemma get_objects_Some h l ts :
  Forall2 (points_to h) l ts -> Heap.get_objects l h = Some (ts, h).
Proof.
  induction 1 as [|r t l ts Hr _ IH]; [done|]. simpl.
  erewrite bind_Some; [|unfold Heap.get_object; by rewrite Hr].
  by erewrite bind_Some; [|exact IH].
Qed.

(** *** Arrays of references, seen as lists of pairs *)

Lemma Forall2_zip {A B} (R : A -> B -> Prop) (xs : list A) (ys : list B) :
  Forall2 R xs ys ->
  Forall (fun xy => R xy.1 xy.2) (zip xs ys)
  /\ (zip xs ys).*1 = xs /\ (zip xs ys).*2 = ys.
Proof.
  induction 1 as [|x y xs ys Hxy _ (IH1 & IH2 & IH3)]; [done|].
  csimpl. rewrite IH2, IH3. repeat split; by constructor.
Qed.

Lemma Forall_pairs {A B} (R : A -> B -> Prop) (xys : list (A * B)) :
  Forall (fun xy => R xy.1 xy.2) xys -> Forall2 R xys.*1 xys.*2.
Proof. induction 1; by constructor. Qed.

Lemma Forall_filter {A} (P : A -> Prop) (f : A -> bool) (xs : list A) :
  Forall P xs -> Forall P (List.filter f xs).
Proof.
  induction 1 as [|x xs Hx _ IH]; simpl; [done|].
  destruct (f x); [by constructor | done].
Qed.

Lemma filter_pairs (p : Todo -> bool) lts :
  (List.filter (fun rt => p rt.2) lts).*2 = List.filter p lts.*2.
Proof.
  induction lts as [|[r t] lts IH]; csimpl; [done|].
  destruct (p t); csimpl; by rewrite IH.
Qed.

Lemma sort_insert_pairs (cmp : Todo -> Todo -> Z) rt lts :
  (Js.sort_insert (fun x y => cmp x.2 y.2) rt lts).*2
  = Js.sort_insert cmp rt.2 lts.*2.
Proof.
  induction lts as [|rt' lts IH]; csimpl; [done|].
  destruct (0 <? cmp rt.2 rt'.2); csimpl; by rewrite ?IH.
Qed.

Lemma sort_pairs (cmp : Todo -> Todo -> Z) lts :
  (Js.sort (fun x y => cmp x.2 y.2) lts).*2 = Js.sort cmp lts.*2.
Proof.
  induction lts as [|rt lts IH]; csimpl; [done|].
  by rewrite sort_insert_pairs, IH.
Qed.

Lemma slice_Forall2 {A B} (R : A -> B -> Prop) xs ys start end_ :
  Forall2 R xs ys ->
  Forall2 R (Js.slice xs start end_) (Js.slice ys start end_).
Proof.
  intros H. unfold Js.slice. rewrite (Forall2_length _ _ _ H).
  by apply Forall2_take, Forall2_drop.
Qed.

Lemma untouched_dom h0 h a :
  untouched h0 h -> a ∈ dom (Heap.arrays h0) -> a ∈ dom (Heap.arrays h).
Proof.
  intros [_ Hsame] Ha. apply elem_of_dom. rewrite (Hsame _ Ha).
  by apply elem_of_dom.
Qed.

Lemma run_bind {A B} (m : Heap.M A) (k : A -> Heap.M B) h P Q :
  run m h P -> (forall x h1, P x h1 -> run (k x) h1 Q) ->
  run (Heap.bind m k) h Q.
Proof.
  intros (x & h1 & E & HP) Hk.
  destruct (Hk x h1 HP) as (y & h2 & E' & HQ).
  exists y, h2. split; [|done]. by rewrite (bind_Some _ _ _ _ _ E).
Qed.

Lemma run_ret {A} (x : A) h (Q : A -> Heap.heap -> Prop) :
  Q x h -> run (Heap.ret x) h Q.
Proof. intros HQ. by exists x, h. Qed.

Lemma run_new_array h0 h l ts :
  untouched h0 h -> Forall2 (points_to h) l ts ->
  run (Heap.new_array l) h (fun a h' => stage h0 h' a ts).
Proof.
  intros Hun Hl. eexists _, _. split; [reflexivity|].
  pose proof (is_fresh (dom (Heap.arrays h))) as Hfresh.
  set (a := fresh (dom (Heap.arrays h))) in *.
  assert (Hold : a ∉ dom (Heap.arrays h0)).
  { intros Ha. by apply Hfresh, (untouched_dom h0). }
  split; [|split; [done|]].
  - split; [apply Hun|]. intros b Hb. simpl.
    rewrite lookup_insert_ne by (intros ->; done). by apply Hun.
  - exists l. simpl. by rewrite lookup_insert_eq.
Qed.

Lemma run_get_array h a l :
  Heap.arrays h !! a = Some l ->
  run (Heap.get_array a) h (fun x h' => x = l /\ h' = h).
Proof. intros Hl. exists l, h. by rewrite (get_array_Some _ _ _ Hl). Qed.

Lemma run_get_objects h l ts :
  Forall2 (points_to h) l ts ->
  run (Heap.get_objects l) h (fun x h' => x = ts /\ h' = h).
Proof. intros Hl. exists ts, h. by rewrite (get_objects_Some _ _ _ Hl). Qed.

Lemma run_spread h todos ts :
  Heap.holds h todos ts ->
  run (Heap.spread todos) h (fun a h' => stage h h' a ts).
Proof.
  intros (l & Hl & Hts). unfold Heap.spread.
  eapply run_bind; [by eapply run_get_array|].
  intros ? ? [-> ->]. by apply run_new_array.
Qed.

Lemma run_filter p h0 h result ts :
  stage h0 h result ts ->
  run (Heap.filter p result) h
      (fun a h' => stage h0 h' a (List.filter p ts)).
Proof.
  intros (Hun & _ & l & Hl & Hts).
  destruct (Forall2_zip _ _ _ Hts) as (Hz & _ & Hz2).
  unfold Heap.filter.
  eapply run_bind; [by eapply run_get_array|]. intros ? ? [-> ->].
  eapply run_bind; [by eapply run_get_objects|]. intros ? ? [-> ->].
  apply run_new_array; [done|].
  rewrite <- Hz2 at 2. rewrite <- filter_pairs.
  by apply Forall_pairs, Forall_filter.
Qed.

Lemma run_sort cmp h0 h result ts :
  stage h0 h result ts ->
  run (Heap.sort cmp result) h
      (fun a h' => a = result /\ stage h0 h' result (Js.sort cmp ts)).
Proof.
  intros (Hun & Hnew & l & Hl & Hts).
  destruct (Forall2_zip _ _ _ Hts) as (Hz & _ & Hz2).
  assert (Hsorted : Forall2 (points_to h)
                      (Js.sort (fun x y => cmp x.2 y.2) (zip l ts)).*1
                      (Js.sort cmp ts)).
  { rewrite <- Hz2 at 2. rewrite <- sort_pairs.
    apply (Forall_pairs (points_to h)).
    by rewrite sort_Permutation. }
  unfold Heap.sort.
  eapply run_bind; [by eapply run_get_array|]. intros ? ? [-> ->].
  eapply run_bind; [by eapply run_get_objects|]. intros ? ? [-> ->].
  eexists _, _. split.
  { erewrite bind_Some; [reflexivity|]. unfold Heap.set_array. by rewrite Hl. }
  split; [done|]. split; [|split; [done|]].
  - split; [apply Hun|]. intros b Hb. simpl.
    rewrite lookup_insert_ne by (intros ->; done). by apply Hun.
  - eexists. simpl. rewrite lookup_insert_eq. split; [reflexivity|].
    exact Hsorted.
Qed.

Lemma run_length h0 h result ts :
  stage h0 h result ts ->
  run (Heap.length result) h
      (fun n h' => n = Z.of_nat (length ts) /\ h' = h).
Proof.
  intros (_ & _ & l & Hl & Hts). unfold Heap.length.
  eapply run_bind; [by eapply run_get_array|]. intros ? ? [-> ->].
  apply run_ret. by rewrite (Forall2_length _ _ _ Hts).
Qed.

Lemma run_slice start end_ h0 h result ts :
  stage h0 h result ts ->
  run (Heap.slice result start end_) h
      (fun a h' => stage h0 h' a (Js.slice ts start end_)).
Proof.
  intros (Hun & _ & l & Hl & Hts). unfold Heap.slice.
  eapply run_bind; [by eapply run_get_array|]. intros ? ? [-> ->].
  apply run_new_array; [done | by apply slice_Forall2].
Qed.

Lemma run_stringify h0 h result ts :
  stage h0 h result ts ->
  run (Heap.stringify result) h (fun d h' => d = ts /\ h' = h).
Proof.
  intros (_ & _ & l & Hl & Hts). unfold Heap.stringify.
  eapply run_bind; [by eapply run_get_array|]. intros ? ? [-> ->].
  by eapply run_get_objects.
Qed.

Section ListEndpoint.
Variable toLowerCase : string -> string.
Variable QueryParam : Type.
Variable as_string : QueryParam -> option string.
Variable coerce_int : QueryParam -> option Z.

Lemma run_get_todos h todos ts rq :
  Heap.holds h todos ts ->
  run (Heap.get_todos toLowerCase QueryParam as_string coerce_int todos rq) h
      (fun resp h' =>
         untouched h h'
         /\ resp = (get_todos toLowerCase QueryParam as_string coerce_int
                              rq ts).1).
Proof.
  intros Hholds. unfold Heap.get_todos, get_todos.
  destruct (listQuerySchema QueryParam as_string coerce_int rq)
    as [parsed|issues]; [|apply run_ret; by split].
  unfold query, sorted, filtered.
  destruct parsed as [q s p sb o pg ps]. cbn [q_q q_status q_priority].
  set (ts1 := match q with
              | Some q =>
                  if String.eqb q "" then ts
                  else List.filter (matches_q toLowerCase (toLowerCase q)) ts
              | None => ts
              end).
  set (ts2 := match s with
              | Some s => List.filter (fun t => TodoStatus_eqb (status t) s) ts1
              | None => ts1
              end).
  set (ts3 := match p with
              | Some p =>
                  if p =? 0 then ts2
                  else List.filter
                         (fun t => from_option (Z.eqb p) false (priority t))
                         ts2
              | None => ts2
              end).
  eapply run_bind; [by apply run_spread|]. intros r0 h0 S0.
  eapply (run_bind _ _ _ (fun a h' => stage h h' a ts1)).
  { subst ts1. destruct q as [q|]; [destruct (String.eqb q "")|];
      [apply run_ret | apply run_filter | apply run_ret]; exact S0. }
  intros r1 h1 S1.
  eapply (run_bind _ _ _ (fun a h' => stage h h' a ts2)).
  { subst ts2. destruct s as [s|]; [apply run_filter | apply run_ret];
      exact S1. }
  intros r2 h2 S2.
  eapply (run_bind _ _ _ (fun a h' => stage h h' a ts3)).
  { subst ts3. destruct p as [p|]; [destruct (p =? 0)|];
      [apply run_ret | apply run_filter | apply run_ret]; exact S2. }
  intros r3 h3 S3.
  eapply run_bind; [eapply run_sort; exact S3|]. intros ? h4 [-> S4].
  eapply run_bind; [eapply run_length; exact S4|]. intros ? ? [-> ->].
  eapply run_bind; [eapply run_slice; exact S4|]. intros d h5 S5.
  eapply run_bind; [eapply run_stringify; exact S5|]. intros ? ? [-> ->].
  apply run_ret. split; [apply S5 | reflexivity].
Qed.

(** C10.  Serving [GET /todos] from a heap whose array [todos] holds
    references to the records [ts] does not get stuck; afterwards no
    record has been written, the array [todos] holds the same references
    in the same order (so the store still holds [ts]), and the answer is
    the one computed from the values [ts]. *)
Theorem get_todos_leaves_the_store h todos ts rq :
  Heap.holds h todos ts ->
  exists resp h',
    Heap.get_todos toLowerCase QueryParam as_string coerce_int todos rq h
    = Some (resp, h')
    /\ Heap.objects h' = Heap.objects h
    /\ Heap.arrays h' !! todos = Heap.arrays h !! todos
    /\ Heap.holds h' todos ts
    /\ (resp, ts)
       = get_todos toLowerCase QueryParam as_string coerce_int rq ts.
Proof.
  intros Hholds.
  destruct (run_get_todos h todos ts rq Hholds)
    as (resp & h' & E & [Hobj Harr] & ->).
  destruct Hholds as (l & Hl & Hts).
  assert (Htodos : Heap.arrays h' !! todos = Heap.arrays h !! todos).
  { apply Harr, elem_of_dom. by rewrite Hl. }
  eexists _, h'. split; [exact E|]. repeat split; try done.
  - exists l. split; [by rewrite Htodos|].
    eapply Forall2_impl; [exact Hts|]. intros r t Hr. by rewrite Hobj.
  - unfold get_todos. by destruct listQuerySchema.
Qed.
End ListEndpoint.
End HeapFacts.

(** * The theorems at concrete inputs *)

(** ** The scenarios of the specification *)

Example scenario_sort_by_priority_asc :
  id <$> sorted Sample.toLowerCase (Sample.by_priority asc) Sample.store
  = ["a"; "b"; "c"]%string.
Proof. reflexivity. Qed.

Example scenario_sort_by_priority_desc :
  id <$> sorted Sample.toLowerCase (Sample.by_priority desc) Sample.store
  = ["b"; "a"; "c"]%string.
Proof. reflexivity. Qed.

Example scenario_default_sort_is_newest_first :
  id <$> sorted Sample.toLowerCase Sample.empty_query Sample.store
  = ["c"; "b"; "a"]%string.
Proof. reflexivity. Qed.

Example scenario_filter_status_done :
  data (query Sample.toLowerCase
          (mkListQuery None (Some done) None None None None None) Sample.store)
  = [Sample.B].
Proof. reflexivity. Qed.

Example scenario_filter_q_ignores_case :
  data (query Sample.toLowerCase
          (mkListQuery (Some "MILK"%string) None None None None None None)
          Sample.store)
  = [Sample.A].
Proof. reflexivity. Qed.

Example scenario_put_twice :
  let first := put_todo Sample.is_datetime Sample.t1 "n" good_body [] in
  let second :=
    put_todo Sample.is_datetime Sample.t2 "n"
      (BObject (mkRawBody (RString "Water cactus") RAbsent RAbsent RAbsent RAbsent))
      first.2 in
  code first.1 = 201
  /\ first.2 = [mkTodo "n" "Water plants" None pending Sample.t1 Sample.t1
                       (Some Sample.t3) (Some 2)]
  /\ code second.1 = 200
  /\ second.2 = [mkTodo "n" "Water cactus" None pending Sample.t1 Sample.t2
                        None None].
Proof. by repeat split. Qed.

Example scenario_clear_priority :
  (patch_todo Sample.is_datetime Sample.t2 "a"
     (BObject (mkRawBody RAbsent RAbsent RAbsent RAbsent RNull))
     [Sample.A]).2
  = [mkTodo "a" "Buy milk" None pending Sample.t1 Sample.t2 None None].
Proof. reflexivity. Qed.

(** ** Inputs for the general theorems *)

Lemma store_first_at_b : first_at "b" Sample.store 1 Sample.B.
Proof.
  split; [reflexivity|]. split; [reflexivity|].
  intros [|m] u Hm Hu; [|exfalso; lia].
  injection Hu as <-. discriminate.
Defined.

Lemma store_id_free_z : id_free "z" Sample.store.
Proof. repeat constructor; discriminate. Defined.

Lemma store_ids_unique : ids_unique Sample.store.
Proof.
  unfold ids_unique. simpl. repeat constructor.
  - intros H. repeat (apply elem_of_cons in H as [H|H]; [discriminate|]).
    by apply elem_of_nil in H.
  - intros H. repeat (apply elem_of_cons in H as [H|H]; [discriminate|]).
    by apply elem_of_nil in H.
  - intros H. by apply elem_of_nil in H.
Defined.

Lemma sort_puts_missing_last_and_orders_keys_witness :
  (0 < 1)%nat
  /\ sorted Sample.toLowerCase (Sample.by_priority asc) Sample.store !! 0%nat
     = Some Sample.A
  /\ sorted Sample.toLowerCase (Sample.by_priority asc) Sample.store !! 1%nat
     = Some Sample.B
  /\ Permutation (sorted Sample.toLowerCase (Sample.by_priority asc) Sample.store)
                 Sample.store
  /\ (forall x y, get_field SortPriority Sample.A = JNumber x ->
                  get_field SortPriority Sample.B = JNumber y ->
                  SortPriority = SortPriority /\ x <= y)
  /\ missing_last (numbers_in_order asc)
                  (priority Sample.A) (priority Sample.B).
Proof.
  split; [lia|]. split; [reflexivity|]. split; [reflexivity|].
  destruct (sort_puts_missing_last_and_orders_keys
              Sample.toLowerCase (Sample.by_priority asc) Sample.store
              0 1 Sample.A Sample.B)
    as (Hperm & _ & Hnum & _ & _ & Hfield); [lia | reflexivity | reflexivity |].
  split; [exact Hperm|]. split; [exact Hnum | exact Hfield].
Defined.

Lemma query_envelope_witness :
  1 <= 2 /\ 1 <= 2 <= 100
  /\ data (query Sample.toLowerCase (Sample.paged 2 2) Sample.store)
     = take 2 (drop 2 (sorted Sample.toLowerCase (Sample.paged 2 2) Sample.store))
  /\ total (query Sample.toLowerCase (Sample.paged 2 2) Sample.store) = 3
  /\ totalPages (query Sample.toLowerCase (Sample.paged 2 2) Sample.store) = 2.
Proof.
  split; [lia|]. split; [lia|].
  destruct (query_envelope Sample.toLowerCase (Sample.paged 2 2) Sample.store)
    as (_ & _ & Htotal & Hdata & _);
    [change (1 <= 2); lia | change (1 <= 2 <= 100); lia |].
  split; [exact Hdata|]. split; [exact Htotal | reflexivity].
Defined.

Lemma patch_unknown_id_not_found_witness :
  id_free "z" Sample.store
  /\ patch_todo Sample.is_datetime Sample.t3 "z" bad_body Sample.store
     = (not_found, Sample.store).
Proof.
  split; [exact store_id_free_z|].
  apply (patch_unknown_id_not_found Sample.is_datetime Sample.t3 "z" bad_body
           Sample.store store_id_free_z).
Defined.

Lemma put_creates_or_overwrites_witness :
  replaceTodoSchema Sample.is_datetime (put_body good_body) = Valid good_input
  /\ (put_todo Sample.is_datetime Sample.t3 "z" good_body Sample.store).1
     = mkResponse 201
         (TodoJson (mkTodo "z" "Water plants" None pending Sample.t3 Sample.t3
                           (Some Sample.t3) (Some 2)))
  /\ (put_todo Sample.is_datetime Sample.t3 "b" good_body Sample.store).1
     = mkResponse 200
         (TodoJson (mkTodo "b" "Water plants" None pending Sample.t2 Sample.t3
                           (Some Sample.t3) (Some 2))).
Proof.
  split; [reflexivity|]. split.
  - rewrite (proj1 (put_creates_or_overwrites Sample.is_datetime Sample.t3 "z"
                      good_body Sample.store good_input eq_refl)
                   store_id_free_z).
    reflexivity.
  - rewrite (proj2 (put_creates_or_overwrites Sample.is_datetime Sample.t3 "b"
                      good_body Sample.store good_input eq_refl)
                   1%nat Sample.B store_first_at_b).
    reflexivity.
Defined.

Lemma delete_removes_the_record_once_witness :
  first_at "b" Sample.store 1 Sample.B
  /\ ids_unique Sample.store
  /\ id_free "z" Sample.store
  /\ delete_todo "z" Sample.store = (not_found, Sample.store)
  /\ delete_todo "b" Sample.store
     = (json (TodoJson Sample.B), [Sample.C; Sample.A])
  /\ delete_todo "b" (delete_todo "b" Sample.store).2
     = (not_found, [Sample.C; Sample.A]).
Proof.
  split; [exact store_first_at_b|]. split; [exact store_ids_unique|].
  split; [exact store_id_free_z|].
  split; [|split].
  - exact (proj1 (delete_removes_the_record_once "z" Sample.store)
                 store_id_free_z).
  - exact (proj1 (proj2 (delete_removes_the_record_once "b" Sample.store)
                        1%nat Sample.B store_first_at_b)).
  - exact (proj2 (proj2 (delete_removes_the_record_once "b" Sample.store)
                        1%nat Sample.B store_first_at_b)
                 store_ids_unique).
Defined.

Lemma after_create_reachable :
  reachable Sample.is_datetime Sample.toLowerCase Sample.QueryParam
            Sample.as_string Sample.coerce_int Sample.t1 after_create.
Proof.
  apply (reachable_request _ _ _ _ _ Sample.t1 [] Sample.t1 "a"
           (POST_todos good_body)).
  - apply reachable_start.
  - reflexivity.
  - constructor.
Defined.

Lemma after_create_first_at_a :
  first_at "a" after_create 0
           (mkTodo "a" "Water plants" None pending Sample.t1 Sample.t1
                   (Some Sample.t3) (Some 2)).
Proof.
  split; [reflexivity|]. split; [reflexivity|].
  intros m u Hm. exfalso. lia.
Defined.

Lemma patch_keeps_id_and_createdAt_witness :
  reachable Sample.is_datetime Sample.toLowerCase Sample.QueryParam
            Sample.as_string Sample.coerce_int Sample.t1 after_create
  /\ time_le Sample.t1 Sample.t2
  /\ first_at "a" after_create 0
              (mkTodo "a" "Water plants" None pending Sample.t1 Sample.t1
                      (Some Sample.t3) (Some 2))
  /\ updateTodoSchema Sample.is_datetime patch_body = Valid patch_input
  /\ exists updated,
       patch_todo Sample.is_datetime Sample.t2 "a" patch_body after_create
       = (json (TodoJson updated), <[0%nat := updated]> after_create)
       /\ id updated = "a"%string
       /\ createdAt updated = Sample.t1
       /\ updatedAt updated = Sample.t2
       /\ time_le Sample.t1 (updatedAt updated).
Proof.
  split; [exact after_create_reachable|]. split; [reflexivity|].
  split; [exact after_create_first_at_a|]. split; [reflexivity|].
  apply (patch_keeps_id_and_createdAt
           Sample.is_datetime Sample.toLowerCase Sample.QueryParam
           Sample.as_string Sample.coerce_int
           Sample.t1 Sample.t2 "a" patch_body after_create 0 _ patch_input
           after_create_reachable eq_refl after_create_first_at_a eq_refl).
Defined.

Lemma after_done_reachable :
  reachable Sample.is_datetime Sample.toLowerCase Sample.QueryParam
            Sample.as_string Sample.coerce_int Sample.t2 after_done.
Proof.
  apply (reachable_request _ _ _ _ _ Sample.t1 after_create Sample.t2 "u"
           (POST_done "a")).
  - exact after_create_reachable.
  - reflexivity.
  - repeat constructor; discriminate.
Defined.

Lemma updatedAt_not_before_createdAt_witness :
  reachable Sample.is_datetime Sample.toLowerCase Sample.QueryParam
            Sample.as_string Sample.coerce_int Sample.t1 after_create
  /\ time_le Sample.t1 Sample.t2
  /\ first_at "a" after_create 0
              (mkTodo "a" "Water plants" None pending Sample.t1 Sample.t1
                      (Some Sample.t3) (Some 2))
  /\ (exists t,
        handle Sample.is_datetime Sample.toLowerCase Sample.QueryParam
               Sample.as_string Sample.coerce_int
               Sample.t2 "u" (POST_done "a") after_create
        = (mkResponse 200 (TodoJson t), <[0%nat := t]> after_create)
        /\ status t = done
        /\ createdAt t = Sample.t1
        /\ updatedAt t = Sample.t2)
  /\ reachable Sample.is_datetime Sample.toLowerCase Sample.QueryParam
               Sample.as_string Sample.coerce_int Sample.t2 after_done
  /\ after_done
     = [mkTodo "a" "Water plants" None done Sample.t1 Sample.t2
               (Some Sample.t3) (Some 2)]
  /\ Forall (fun t => time_le (createdAt t) (updatedAt t)) after_done
  /\ writes_record (@POST_done Sample.QueryParam "a") = true
  /\ forall c t todos',
       handle Sample.is_datetime Sample.toLowerCase Sample.QueryParam
              Sample.as_string Sample.coerce_int
              Sample.t2 "u" (POST_done "a") after_create
       = (mkResponse c (TodoJson t), todos') ->
       updatedAt t = Sample.t2.
Proof.
  pose proof (updatedAt_not_before_createdAt
                Sample.is_datetime Sample.toLowerCase Sample.QueryParam
                Sample.as_string Sample.coerce_int)
    as (Hinv & Hwritten & Hwrites).
  destruct (Hwrites Sample.t1 after_create Sample.t2 "u"%string
              after_create_reachable eq_refl) as (_ & _ & Hstored).
  destruct (Hstored "a"%string 0%nat _ after_create_first_at_a)
    as (_ & _ & _ & Hdone & _).
  split; [exact after_create_reachable|]. split; [reflexivity|].
  split; [exact after_create_first_at_a|]. split; [exact Hdone|].
  split; [exact after_done_reachable|]. split; [reflexivity|].
  split; [exact (Hinv Sample.t2 after_done after_done_reachable)|].
  split; [reflexivity|].
  intros c t todos' H.
  exact (proj1 (Hwritten Sample.t2 "u"%string (POST_done "a") after_create
                         c t todos' H eq_refl)).
Defined.

(** C7 as stated fails for [PATCH] when the id is unknown: the body
    [{ "title": 5 }] is rejected by the update schema, and [PATCH /todos/z]
    on a store without [z] answers 404 "Not found", not the validation
    error. *)
Lemma patch_rejected_body_unknown_id_answers_not_found :
  updateTodoSchema Sample.is_datetime bad_body = Invalid ["title"%string]
  /\ id_free "z" Sample.store
  /\ patch_todo Sample.is_datetime Sample.t3 "z" bad_body Sample.store
     = (not_found, Sample.store)
  /\ not_found <> validation_error ["title"%string].
Proof.
  split; [reflexivity|]. split; [exact store_id_free_z|].
  split; [reflexivity | discriminate].
Qed.

Lemma rejected_requests_change_nothing_witness :
  createTodoSchema Sample.is_datetime bad_body = Invalid ["title"%string]
  /\ updateTodoSchema Sample.is_datetime bad_body = Invalid ["title"%string]
  /\ replaceTodoSchema Sample.is_datetime (put_body bad_body)
     = Invalid ["title"%string]
  /\ ~ id_free "b" Sample.store
  /\ id_free "z" Sample.store
  /\ post_todos Sample.is_datetime Sample.t3 "u" bad_body Sample.store
     = (validation_error ["title"%string], Sample.store)
  /\ patch_todo Sample.is_datetime Sample.t3 "b" bad_body Sample.store
     = (validation_error ["title"%string], Sample.store)
  /\ put_todo Sample.is_datetime Sample.t3 "b" bad_body Sample.store
     = (validation_error ["title"%string], Sample.store)
  /\ set_status done Sample.t3 "z" Sample.store = (not_found, Sample.store)
  /\ delete_todo "z" Sample.store = (not_found, Sample.store).
Proof.
  pose proof (rejected_requests_change_nothing Sample.is_datetime Sample.t3
                "u" "b" bad_body Sample.store ["title"%string] done)
    as (Hpost & Hpatch & Hput & _).
  pose proof (rejected_requests_change_nothing Sample.is_datetime Sample.t3
                "u" "z" bad_body Sample.store ["title"%string] done)
    as (_ & _ & _ & Hmissing).
  assert (Hb : ~ id_free "b" Sample.store).
  { exact (first_at_not_free _ _ _ _ store_first_at_b). }
  split; [reflexivity|]. split; [reflexivity|]. split; [reflexivity|].
  split; [exact Hb|]. split; [exact store_id_free_z|].
  split; [exact (Hpost eq_refl)|].
  split.
  { destruct (Hpatch eq_refl) as [Hstore Hresp].
    rewrite (surjective_pairing (patch_todo _ _ _ _ _)).
    by rewrite Hstore, (Hresp Hb). }
  split; [exact (Hput eq_refl)|].
  destruct (Hmissing store_id_free_z) as (_ & Hset & Hdel).
  split; [exact Hset | exact Hdel].
Defined.

Lemma sample_heap_holds : Heap.holds sample_heap 3%positive [Sample.B; Sample.A].
Proof.
  exists [2%positive; 1%positive]. split; [reflexivity|].
  repeat constructor.
Defined.

Lemma get_todos_leaves_the_store_witness :
  Heap.holds sample_heap 3%positive [Sample.B; Sample.A]
  /\ exists resp h',
       Heap.get_todos Sample.toLowerCase Sample.QueryParam Sample.as_string
                      Sample.coerce_int 3%positive
                      (mkRawQuery _ None None None None None None None)
                      sample_heap
       = Some (resp, h')
       /\ Heap.objects h' = Heap.objects sample_heap
       /\ Heap.arrays h' !! 3%positive = Some [2%positive; 1%positive].
Proof.
  split; [exact sample_heap_holds|].
  destruct (get_todos_leaves_the_store
              Sample.toLowerCase Sample.QueryParam Sample.as_string
              Sample.coerce_int sample_heap 3%positive [Sample.B; Sample.A]
              (mkRawQuery _ None None None None None None None)
              sample_heap_holds)
    as (resp & h' & E & Hobj & Harr & _).
  exists resp, h'. split; [exact E|]. split; [exact Hobj|].
  exact (eq_trans Harr eq_refl).
Defined.

(** * Further properties of the service *)

(** ** Reading a record back *)

Lemma find_first_record i (todos : Store) n t :
  first_at i todos n t -> List.find (has_id i) todos = Some t.
Proof.
  revert n. induction todos as [|u todos IH]; intros n (Hn & Hid & Hlt).
  - by rewrite lookup_nil in Hn.
  - simpl. destruct n as [|n].
    + injection Hn as ->. by rewrite (proj2 (has_id_true i t) Hid).
    + rewrite (proj2 (has_id_false i u)) by (apply (Hlt 0%nat); [lia|done]).
      apply (IH n). split; [done|]. split; [done|].
      intros m v Hm Hv. apply (Hlt (S m)); [lia|done].
Qed.

Lemma find_no_record i (todos : Store) :
  id_free i todos -> List.find (has_id i) todos = None.
Proof.
  induction 1 as [|u todos Hu _ IH]; [done|]. simpl.
  by rewrite (proj2 (has_id_false i u) Hu).
Qed.

Lemma first_at_insert i (todos : Store) n old r :
  first_at i todos n old -> id r = i -> first_at i (<[n := r]> todos) n r.
Proof.
  intros (Hn & _ & Hlt) Hr. split; [|split; [done|]].
  - apply list_lookup_insert_eq. by eapply lookup_lt_Some.
  - intros m u Hm Hu. rewrite list_lookup_insert_ne in Hu by lia. eauto.
Qed.

Lemma first_at_append i (todos : Store) r :
  id_free i todos -> id r = i -> first_at i (todos ++ [r]) (length todos) r.
Proof.
  intros Hfree Hr. split; [|split; [done|]].
  - rewrite lookup_app_r by lia. by rewrite Nat.sub_diag.
  - intros m u Hm Hu. rewrite lookup_app_l in Hu by lia.
    by apply (Forall_lookup_1 _ _ _ _ Hfree Hu).
Qed.

(** X1.  [GET /todos/:id] never changes the store.  It answers 404 when no
    record has the id, and otherwise 200 with the first record that has
    it. *)
Theorem get_todo_finds_the_record i (todos : Store) :
  (get_todo i todos).2 = todos
  /\ (id_free i todos -> get_todo i todos = (not_found, todos))
  /\ (forall n t, first_at i todos n t ->
        get_todo i todos = (json (TodoJson t), todos)).
Proof.
  unfold get_todo. split; [by destruct List.find|]. split.
  - intros Hfree. by rewrite find_no_record.
  - intros n t Hf. by rewrite (find_first_record _ _ _ _ Hf).
Qed.

Lemma get_todo_found i (todos : Store) n t :
  first_at i todos n t -> get_todo i todos = (json (TodoJson t), todos).
Proof. intros Hf. unfold get_todo. by rewrite (find_first_record _ _ _ _ Hf). Qed.

Lemma get_todo_not_found i (todos : Store) :
  id_free i todos -> get_todo i todos = (not_found, todos).
Proof. intros Hfree. unfold get_todo. by rewrite find_no_record. Qed.

Section ReadBack.
Variable is_datetime : string -> bool.
Variable toLowerCase : string -> string.
Variable QueryParam : Type.
Variable as_string : QueryParam -> option string.
Variable coerce_int : QueryParam -> option Z.

Local Abbreviation handle :=
  (handle is_datetime toLowerCase QueryParam as_string coerce_int).

(** After a writing request, the record it answers with is the first one
    under its id. *)
Lemma handle_written_first_at now uuid r (todos : Store) c t todos' :
  id_free uuid todos ->
  handle now uuid r todos = (mkResponse c (TodoJson t), todos') ->
  writes_record r = true ->
  exists n, first_at (id t) todos' n t.
Proof.
  intros Hfresh.
  destruct r as [rq|body|i|i body|i body|i|i|i]; simpl; try discriminate;
    intros H _.
  - unfold post_todos in H. destruct createTodoSchema; [|discriminate].
    injection H as <- <- <-. eexists. by apply first_at_append.
  - destruct (id_free_or_first_at i todos) as [Hfree|(n & u & Hf)].
    { rewrite patch_todo_not_found in H by done. discriminate. }
    destruct (updateTodoSchema is_datetime body) as [patch|issues] eqn:Hv.
    + rewrite (patch_todo_found _ _ _ _ _ _ _ _ Hf Hv) in H.
      injection H as <- <- <-. exists n.
      assert (Hf' : first_at (id u) todos n u)
        by (by rewrite (proj1 (proj2 Hf))).
      by apply (first_at_insert _ _ _ u).
    + rewrite (patch_todo_rejected _ _ _ _ _ _ _ _ Hf Hv) in H. discriminate.
  - destruct (replaceTodoSchema is_datetime (put_body body))
      as [input|issues] eqn:Hv.
    + destruct (id_free_or_first_at i todos) as [Hfree|(n & u & Hf)].
      * rewrite (put_todo_created _ now _ _ _ _ Hv Hfree) in H.
        injection H as <- <- <-. eexists. by apply first_at_append.
      * rewrite (put_todo_overwritten _ now _ _ _ _ _ _ Hv Hf) in H.
        injection H as <- <- <-. exists n. by eapply first_at_insert.
    + unfold put_todo in H. rewrite Hv in H. discriminate.
  - unfold post_done in H.
    destruct (id_free_or_first_at i todos) as [Hfree|(n & u & Hf)].
    { rewrite set_status_not_found in H by done. discriminate. }
    rewrite (set_status_found _ _ _ _ _ _ Hf) in H.
    injection H as <- <- <-. exists n.
    assert (Hf' : first_at (id u) todos n u)
      by (by rewrite (proj1 (proj2 Hf))).
    by apply (first_at_insert _ _ _ u).
  - unfold post_pending in H.
    destruct (id_free_or_first_at i todos) as [Hfree|(n & u & Hf)].
    { rewrite set_status_not_found in H by done. discriminate. }
    rewrite (set_status_found _ _ _ _ _ _ Hf) in H.
    injection H as <- <- <-. exists n.
    assert (Hf' : first_at (id u) todos n u)
      by (by rewrite (proj1 (proj2 Hf))).
    by apply (first_at_insert _ _ _ u).
Qed.

(** X2.  Write, then read: when a request answers with a record ([POST
    /todos], [PATCH], [PUT], the two status shortcuts), a [GET /todos/:id]
    for that record's id on the resulting store answers 200 with the very
    same record.  For [POST /todos] this needs the generated id to be
    unused. *)
Theorem written_record_is_read_back now uuid r (todos : Store) c t todos' :
  id_free uuid todos ->
  handle now uuid r todos = (mkResponse c (TodoJson t), todos') ->
  writes_record r = true ->
  get_todo (id t) todos' = (json (TodoJson t), todos').
Proof.
  intros Hfresh H Hw.
  destruct (handle_written_first_at _ _ _ _ _ _ _ Hfresh H Hw) as [n Hf].
  by eapply get_todo_found.
Qed.

End ReadBack.

(** X3.  Delete, then read: when ids are unique, after [DELETE /todos/:id]
    has removed the record, [GET /todos/:id] and the two status shortcuts
    answer 404 on the resulting store, and the store has one record less. *)
Theorem deleted_record_is_gone i (todos : Store) n t s now :
  ids_unique todos ->
  first_at i todos n t ->
  let todos' := (delete_todo i todos).2 in
  get_todo i todos' = (not_found, todos')
  /\ set_status s now i todos' = (not_found, todos')
  /\ S (length todos') = length todos.
Proof.
  intros Hu Hf todos'.
  assert (Hfree : id_free i todos').
  { subst todos'. rewrite (delete_todo_found _ _ _ _ Hf). simpl.
    by eapply ids_unique_delete_free. }
  split; [by apply get_todo_not_found|].
  split; [by apply set_status_not_found|].
  subst todos'. rewrite (delete_todo_found _ _ _ _ Hf). simpl.
  rewrite length_delete by (eexists; apply Hf).
  pose proof (lookup_lt_Some _ _ _ (proj1 Hf)). lia.
Qed.

(** ** The outcomes of each route *)

Section Outcomes.
Variable is_datetime : string -> bool.
Implicit Types (todos : Store) (body : Body) (now i : string).

Lemma patch_todo_cases now i body todos :
  (id_free i todos
   /\ patch_todo is_datetime now i body todos = (not_found, todos))
  \/ exists n u, first_at i todos n u
       /\ ((exists issues,
              updateTodoSchema is_datetime body = Invalid issues
              /\ patch_todo is_datetime now i body todos
                 = (validation_error issues, todos))
           \/ (exists patch,
                 updateTodoSchema is_datetime body = Valid patch
                 /\ patch_todo is_datetime now i body todos
                    = (json (TodoJson (merge now u patch)),
                       <[n := merge now u patch]> todos))).
Proof.
  destruct (id_free_or_first_at i todos) as [Hfree|(n & u & Hf)].
  - left. split; [done | by apply patch_todo_not_found].
  - right. exists n, u. split; [done|].
    destruct (updateTodoSchema is_datetime body) as [patch|issues] eqn:Hv.
    + right. exists patch. split; [done | by apply patch_todo_found].
    + left. exists issues. split; [done | by eapply patch_todo_rejected].
Qed.

Lemma put_todo_cases now i body todos :
  (exists issues,
     replaceTodoSchema is_datetime (put_body body) = Invalid issues
     /\ put_todo is_datetime now i body todos
        = (validation_error issues, todos))
  \/ exists input,
       replaceTodoSchema is_datetime (put_body body) = Valid input
       /\ ((id_free i todos
            /\ let r := mkTodo i (p_title input) (p_description input)
                               (p_status input) now now (p_dueDate input)
                               (p_priority input) in
               put_todo is_datetime now i body todos
               = (mkResponse 201 (TodoJson r), todos ++ [r]))
           \/ (exists n old, first_at i todos n old
                 /\ let r := mkTodo i (p_title input) (p_description input)
                                    (p_status input) (createdAt old) now
                                    (p_dueDate input) (p_priority input) in
                    put_todo is_datetime now i body todos
                    = (mkResponse 200 (TodoJson r), <[n := r]> todos))).
Proof.
  destruct (replaceTodoSchema is_datetime (put_body body))
    as [input|issues] eqn:Hv.
  - right. exists input. split; [done|].
    destruct (id_free_or_first_at i todos) as [Hfree|(n & old & Hf)].
    + left. split; [done | by apply put_todo_created].
    + right. exists n, old. split; [done | by apply put_todo_overwritten].
  - left. exists issues. split; [done|]. unfold put_todo. by rewrite Hv.
Qed.

Lemma delete_todo_cases i todos :
  (id_free i todos /\ delete_todo i todos = (not_found, todos))
  \/ exists n t, first_at i todos n t
       /\ delete_todo i todos = (json (TodoJson t), delete n todos).
Proof.
  destruct (id_free_or_first_at i todos) as [Hfree|(n & t & Hf)].
  - left. split; [done | by apply delete_todo_not_found].
  - right. exists n, t. split; [done | by apply delete_todo_found].
Qed.

Lemma set_status_cases s now i todos :
  (id_free i todos /\ set_status s now i todos = (not_found, todos))
  \/ exists n t, first_at i todos n t
       /\ let t' := mkTodo (id t) (title t) (description t) s (createdAt t)
                           now (dueDate t) (priority t) in
          set_status s now i todos = (json (TodoJson t'), <[n := t']> todos).
Proof.
  destruct (id_free_or_first_at i todos) as [Hfree|(n & t & Hf)].
  - left. split; [done | by apply set_status_not_found].
  - right. exists n, t. split; [done | by apply set_status_found].
Qed.

End Outcomes.

Section Responses.
Variable is_datetime : string -> bool.
Variable toLowerCase : string -> string.
Variable QueryParam : Type.
Variable as_string : QueryParam -> option string.
Variable coerce_int : QueryParam -> option Z.

Local Abbreviation handle :=
  (handle is_datetime toLowerCase QueryParam as_string coerce_int).

(** X4.  For a request that reaches its handler (its body, if any, was
    parsed by [express.json()]), the status code of the answer goes with what
    it carries: a record with 200 or 201, a page of records with 200,
    "Not found" with 404, the validation issues with 400.  No handler ends
    in the 500 branch of the error handler or sends an empty body, and only
    [POST /todos] and [PUT] answer 201. *)
Theorem answers_are_200_201_400_404 now uuid r (todos : Store) :
  let resp := (handle now uuid r todos).1 in
  match payload resp with
  | TodoJson _ => code resp = 200 \/ code resp = 201
  | EnvelopeJson _ => code resp = 200
  | NotFoundJson => code resp = 404
  | ValidationErrorJson _ => code resp = 400
  | UndefinedJson | InternalErrorJson => False
  end
  /\ (code resp = 201 ->
      match r with
      | POST_todos _ | PUT_todo _ _ => True
      | _ => False
      end).
Proof.
  destruct r as [rq|body|i|i body|i body|i|i|i]; simpl.
  - unfold get_todos. destruct listQuerySchema; simpl; (split; [auto | done]).
  - unfold post_todos. destruct createTodoSchema; simpl; (split; [auto | done]).
  - unfold get_todo. destruct List.find; simpl; (split; [auto | done]).
  - destruct (patch_todo_cases is_datetime now i body todos)
      as [[_ ->]|(n & u & _ & [(issues & _ & ->)|(patch & _ & ->)])];
      simpl; (split; [auto | done]).
  - destruct (put_todo_cases is_datetime now i body todos)
      as [(issues & _ & ->)
         |(input & _ & [[_ ->]|(n & old & _ & ->)])]; simpl; (split; [auto | done]).
  - destruct (delete_todo_cases i todos) as [[_ ->]|(n & t & _ & ->)];
      simpl; (split; [auto | done]).
  - unfold post_done.
    destruct (set_status_cases done now i todos) as [[_ ->]|(n & t & _ & ->)];
      simpl; (split; [auto | done]).
  - unfold post_pending.
    destruct (set_status_cases pending now i todos)
      as [[_ ->]|(n & t & _ & ->)]; simpl; (split; [auto | done]).
Qed.

(** X5.  How the store's size moves: an answer 201 means one record more
    (appended at the end), a [DELETE] answered 200 means one record less,
    and after every other answer the store has as many records as before. *)
Theorem store_size_after_request now uuid r (todos : Store) :
  let resp := (handle now uuid r todos).1 in
  let todos' := (handle now uuid r todos).2 in
  (code resp = 201 ->
   exists t, payload resp = TodoJson t /\ todos' = todos ++ [t])
  /\ (is_delete r = true -> code resp = 200 ->
      S (length todos') = length todos)
  /\ (code resp <> 201 -> ~ (is_delete r = true /\ code resp = 200) ->
      length todos' = length todos).
Proof.
  destruct r as [rq|body|i|i body|i body|i|i|i]; simpl.
  - unfold get_todos. destruct listQuerySchema; simpl; repeat split; done.
  - unfold post_todos. destruct createTodoSchema; simpl;
      repeat split; try done; eauto.
  - unfold get_todo. destruct List.find; simpl; repeat split; done.
  - destruct (patch_todo_cases is_datetime now i body todos)
      as [[_ ->]|(n & u & _ & [(issues & _ & ->)|(patch & _ & ->)])];
      simpl; repeat split; try done.
    intros _ _. apply length_insert.
  - destruct (put_todo_cases is_datetime now i body todos)
      as [(issues & _ & ->)
         |(input & _ & [[_ ->]|(n & old & _ & ->)])];
      simpl; repeat split; try done; eauto.
    intros _ _. apply length_insert.
  - destruct (delete_todo_cases i todos) as [[_ ->]|(n & t & Hf & ->)];
      simpl; repeat split; try done.
    + intros _ _. rewrite length_delete by (eexists; apply Hf).
      pose proof (lookup_lt_Some _ _ _ (proj1 Hf)). lia.
    + intros _ H. destruct H. by split.
  - unfold post_done.
    destruct (set_status_cases done now i todos) as [[_ ->]|(n & t & _ & ->)];
      simpl; repeat split; try done.
    intros _ _. apply length_insert.
  - unfold post_pending.
    destruct (set_status_cases pending now i todos)
      as [[_ ->]|(n & t & _ & ->)]; simpl; repeat split; try done.
    intros _ _. apply length_insert.
Qed.

End Responses.

(** ** Records a request does not address *)

Lemma filter_insert_out (p : Todo -> bool) (todos : Store) n t t' :
  todos !! n = Some t -> p t = false -> p t' = false ->
  List.filter p (<[n := t']> todos) = List.filter p todos.
Proof.
  revert n. induction todos as [|u todos IH]; intros [|n] Hn Ht Ht';
    simpl in *; try done.
  - injection Hn as ->. by rewrite Ht, Ht'.
  - by rewrite (IH n Hn Ht Ht').
Qed.

Lemma filter_delete_out (p : Todo -> bool) (todos : Store) n t :
  todos !! n = Some t -> p t = false ->
  List.filter p (delete n todos) = List.filter p todos.
Proof.
  revert n. induction todos as [|u todos IH]; intros [|n] Hn Ht;
    simpl in *; try done.
  - injection Hn as ->. by rewrite Ht.
  - by rewrite (IH n Hn Ht).
Qed.

Lemma filter_append_out (p : Todo -> bool) (todos : Store) t :
  p t = false -> List.filter p (todos ++ [t]) = List.filter p todos.
Proof. intros Ht. rewrite List.filter_app. simpl. by rewrite Ht, app_nil_r. Qed.

Lemma other_id_of i t : id t = i -> negb (has_id i t) = false.
Proof. intros H. by rewrite (proj2 (has_id_true i t) H). Qed.

Section Frame.
Variable is_datetime : string -> bool.
Variable toLowerCase : string -> string.
Variable QueryParam : Type.
Variable as_string : QueryParam -> option string.
Variable coerce_int : QueryParam -> option Z.

Local Abbreviation handle :=
  (handle is_datetime toLowerCase QueryParam as_string coerce_int).
Local Abbreviation reachable :=
  (reachable is_datetime toLowerCase QueryParam as_string coerce_int).

(** X6.  A request that addresses the id [i] ([GET], [PATCH], [PUT],
    [DELETE /todos/i], the two status shortcuts) leaves the records with any
    other id as they were, in the same order. *)
Theorem other_records_are_untouched now uuid r i (todos : Store) :
  target r = Some i ->
  List.filter (fun t => negb (has_id i t)) (handle now uuid r todos).2
  = List.filter (fun t => negb (has_id i t)) todos.
Proof.
  destruct r as [rq|body|j|j body|j body|j|j|j]; simpl; try discriminate;
    intros [= ->].
  - unfold get_todo. by destruct List.find.
  - destruct (patch_todo_cases is_datetime now i body todos)
      as [[_ ->]|(n & u & Hf & [(issues & _ & ->)|(patch & _ & ->)])];
      simpl; try done.
    apply (filter_insert_out _ _ _ u); [apply Hf|..];
      apply other_id_of, Hf.
  - destruct (put_todo_cases is_datetime now i body todos)
      as [(issues & _ & ->)
         |(input & _ & [[_ ->]|(n & old & Hf & ->)])]; simpl; try done.
    + by apply filter_append_out, other_id_of.
    + apply (filter_insert_out _ _ _ old); [apply Hf|..];
        by apply other_id_of; try apply Hf.
  - destruct (delete_todo_cases i todos) as [[_ ->]|(n & t & Hf & ->)];
      simpl; try done.
    apply (filter_delete_out _ _ _ t); [apply Hf|]. apply other_id_of, Hf.
  - unfold post_done.
    destruct (set_status_cases done now i todos) as [[_ ->]|(n & t & Hf & ->)];
      simpl; try done.
    apply (filter_insert_out _ _ _ t); [apply Hf|..]; apply other_id_of, Hf.
  - unfold post_pending.
    destruct (set_status_cases pending now i todos)
      as [[_ ->]|(n & t & Hf & ->)]; simpl; try done.
    apply (filter_insert_out _ _ _ t); [apply Hf|..]; apply other_id_of, Hf.
Qed.

Lemma ids_unique_same_record (todos : Store) t t' :
  ids_unique todos -> t ∈ todos -> t' ∈ todos -> id t' = id t -> t' = t.
Proof.
  intros Hu [a Ha]%list_elem_of_lookup_1 [b Hb]%list_elem_of_lookup_1 Hid.
  assert (a = b) as ->.
  { apply (NoDup_lookup _ a b (id t) Hu); rewrite list_lookup_fmap.
    - by rewrite Ha.
    - rewrite Hb. simpl. by rewrite Hid. }
  congruence.
Qed.

Lemma elem_of_insert_inv (todos : Store) n t' x :
  x ∈ <[n := t']> todos -> x = t' \/ x ∈ todos.
Proof.
  intros [m Hm]%list_elem_of_lookup_1.
  destruct (decide (m = n)) as [->|Hne].
  - left. destruct (decide (n < length todos)%nat).
    + rewrite list_lookup_insert_eq in Hm by done. congruence.
    + rewrite list_insert_ge in Hm by lia.
      apply lookup_lt_Some in Hm. lia.
  - right. rewrite list_lookup_insert_ne in Hm by done.
    by eapply list_elem_of_lookup_2.
Qed.

Lemma store_change_same_id c now (todos todos' : Store) t t' :
  store_change now todos todos' ->
  ids_unique todos -> stamps_ok c todos -> time_le c now ->
  t ∈ todos -> t' ∈ todos' -> id t' = id t ->
  createdAt t' = createdAt t /\ time_le (updatedAt t) (updatedAt t').
Proof.
  intros Hch Hu Hok Hc Ht Ht' Hid.
  assert (Hsame : t' ∈ todos ->
                  createdAt t' = createdAt t
                  /\ time_le (updatedAt t) (updatedAt t')).
  { intros Hin. rewrite (ids_unique_same_record _ _ _ Hu Ht Hin Hid).
    split; [done | apply string_leb_refl]. }
  destruct Hch as [|u Hcr Hup Hfree|n u u' Hn Hid' Hcr Hup|n].
  - by apply Hsame.
  - apply elem_of_app in Ht' as [Hin|Hin]; [by apply Hsame|].
    apply list_elem_of_singleton in Hin as ->.
    destruct (proj1 (Forall_forall _ _) Hfree t Ht). by rewrite Hid.
  - apply elem_of_insert_inv in Ht' as [->|Hin]; [|by apply Hsame].
    assert (Hu' : u ∈ todos) by (by eapply list_elem_of_lookup_2).
    assert (u = t) as ->.
    { apply (ids_unique_same_record todos); [done..|congruence]. }
    split; [done|]. rewrite Hup.
    destruct (proj1 (Forall_forall _ _) Hok t Ht) as [_ Hle].
    by eapply string_leb_trans.
  - apply Hsame. by eapply list_elem_of_delete_inv.
Qed.

(** X7.  On a reachable store, under a monotone clock, a request never
    moves the time stamps of an id backwards: a record found after the
    request under the id of a record that was there before has the same
    creation time, and an update time that is not earlier. *)
Theorem stamps_of_an_id_move_forward c now uuid r (todos : Store) t t' :
  reachable c todos ->
  time_le c now ->
  id_free uuid todos ->
  t ∈ todos ->
  t' ∈ (handle now uuid r todos).2 ->
  id t' = id t ->
  createdAt t' = createdAt t /\ time_le (updatedAt t) (updatedAt t').
Proof.
  intros Hr Hc Hfresh Ht Ht' Hid.
  eapply store_change_same_id; eauto.
  - by apply handle_store_change.
  - by eapply reachable_ids_unique.
  - by eapply reachable_stamps_ok.
Qed.

End Frame.

(** ** What the schemas let through *)

Lemma string_between_Some lo hi r s :
  Zod.string_between lo hi r = Some s ->
  r = RString s /\ lo <= Js.str_length s <= hi.
Proof.
  destruct r as [| |x|n|]; simpl; try discriminate.
  destruct (Z.leb_spec lo (Js.str_length x));
    destruct (Z.leb_spec (Js.str_length x) hi); simpl; try discriminate.
  intros [= ->]. by repeat split.
Qed.

Lemma datetime_Some f r s :
  Zod.datetime f r = Some s -> r = RString s /\ f s = true.
Proof.
  destruct r as [| |x|n|]; simpl; try discriminate.
  destruct (f x) eqn:Hf; [|discriminate]. intros [= ->]. by split.
Qed.

Lemma priority_literal_Some r p :
  Zod.priority_literal r = Some p -> r = RNumber p /\ (p = 1 \/ p = 2 \/ p = 3).
Proof.
  destruct r as [| |x|n|]; simpl; try discriminate.
  destruct (Z.eqb_spec n 1); [intros [= <-]; auto|].
  destruct (Z.eqb_spec n 2); [intros [= <-]; auto|].
  destruct (Z.eqb_spec n 3); [intros [= <-]; auto|]. discriminate.
Qed.

Lemma optional_Some {A} (schema : Raw -> option A) r x :
  Zod.optional schema r = Some (Some x) -> schema r = Some x.
Proof.
  destruct r; simpl; try discriminate;
    (destruct (schema _); simpl; [by intros [= ->] | discriminate]).
Qed.

Lemma optional_nullable_Value {A} (schema : Raw -> option A) r x :
  Zod.optional_nullable schema r = Some (Value x) -> schema r = Some x.
Proof.
  destruct r; simpl; try discriminate;
    (destruct (schema _); simpl; [by intros [= ->] | discriminate]).
Qed.

Section Schemas.
Variable is_datetime : string -> bool.

Lemma description_ok r (d : option string) x :
  Zod.optional (Zod.string_between 0 2000) r = Some d -> d = Some x ->
  Js.str_length x <= 2000.
Proof.
  intros H ->. apply optional_Some, string_between_Some in H. lia.
Qed.

Lemma dueDate_ok r (du : option string) x :
  Zod.optional (Zod.datetime is_datetime) r = Some du -> du = Some x ->
  is_datetime x = true.
Proof. intros H ->. by apply optional_Some, datetime_Some in H as [_ ?]. Qed.

Lemma priority_ok r (p : option Z) x :
  Zod.optional Zod.priority_literal r = Some p -> p = Some x ->
  x = 1 \/ x = 2 \/ x = 3.
Proof.
  intros H ->. by apply optional_Some, priority_literal_Some in H as [_ ?].
Qed.

Lemma createTodoSchema_valid body input :
  createTodoSchema is_datetime body = Valid input ->
  input_valid is_datetime (c_title input) (c_description input) (c_dueDate input)
              (c_priority input).
Proof.
  unfold createTodoSchema. destruct body as [f|]; [|discriminate].
  destruct (Zod.string_between 1 200 (r_title f)) as [t|] eqn:Ht;
    [|discriminate].
  destruct (Zod.optional (Zod.string_between 0 2000) (r_description f))
    as [d|] eqn:Hd; [|discriminate].
  destruct (Zod.optional (Zod.datetime is_datetime) (r_dueDate f))
    as [du|] eqn:Hdu; [|discriminate].
  destruct (Zod.optional Zod.priority_literal (r_priority f))
    as [p|] eqn:Hp; [|discriminate].
  intros [= <-]. simpl. split; [by apply string_between_Some in Ht as [_ ?]|].
  split; [|split]; intros x Hx;
    [eapply description_ok | eapply dueDate_ok | eapply priority_ok]; eauto.
Qed.

Lemma replaceTodoSchema_valid f input :
  replaceTodoSchema is_datetime f = Valid input ->
  input_valid is_datetime (p_title input) (p_description input) (p_dueDate input)
              (p_priority input).
Proof.
  unfold replaceTodoSchema.
  destruct (Zod.string_between 1 200 (r_title f)) as [t|] eqn:Ht;
    [|discriminate].
  destruct (Zod.optional (Zod.string_between 0 2000) (r_description f))
    as [d|] eqn:Hd; [|discriminate].
  destruct (Zod.optional (Zod.datetime is_datetime) (r_dueDate f))
    as [du|] eqn:Hdu; [|discriminate].
  destruct (Zod.optional Zod.priority_literal (r_priority f))
    as [p|] eqn:Hp; [|discriminate].
  destruct (Zod.with_default _ _ _) as [st|]; [|discriminate].
  intros [= <-]. simpl. split; [by apply string_between_Some in Ht as [_ ?]|].
  split; [|split]; intros x Hx;
    [eapply description_ok | eapply dueDate_ok | eapply priority_ok]; eauto.
Qed.

Lemma merge_valid now current body patch :
  updateTodoSchema is_datetime body = Valid patch ->
  record_valid is_datetime current ->
  record_valid is_datetime (merge now current patch).
Proof.
  unfold updateTodoSchema. destruct body as [f|]; [|discriminate].
  destruct (Zod.optional (Zod.string_between 1 200) (r_title f))
    as [t|] eqn:Ht; [|discriminate].
  destruct (Zod.optional (Zod.string_between 0 2000) (r_description f))
    as [d|] eqn:Hd; [|discriminate].
  destruct (Zod.optional Zod.status_literal (r_status f)) as [st|];
    [|discriminate].
  destruct (Zod.optional_nullable (Zod.datetime is_datetime) (r_dueDate f))
    as [du|] eqn:Hdu; [|discriminate].
  destruct (Zod.optional_nullable Zod.priority_literal (r_priority f))
    as [p|] eqn:Hp; [|discriminate].
  intros [= <-] (Hti & Hde & Hdue & Hpr). unfold record_valid. simpl.
  split; [|split; [|split]].
  - destruct t as [t|]; simpl; [|done].
    by apply optional_Some, string_between_Some in Ht as [_ ?].
  - destruct d as [d|]; [|done]. intros x [= <-].
    apply optional_Some, string_between_Some in Hd. lia.
  - destruct du as [| |du]; [done|done|]. intros x [= <-].
    by apply optional_nullable_Value, datetime_Some in Hdu as [_ ?].
  - destruct p as [| |p]; [done|done|]. intros x [= <-].
    by apply optional_nullable_Value, priority_literal_Some in Hp as [_ ?].
Qed.

End Schemas.

Section WellFormed.
Variable is_datetime : string -> bool.
Variable toLowerCase : string -> string.
Variable QueryParam : Type.
Variable as_string : QueryParam -> option string.
Variable coerce_int : QueryParam -> option Z.

Local Abbreviation handle :=
  (handle is_datetime toLowerCase QueryParam as_string coerce_int).
Local Abbreviation reachable :=
  (reachable is_datetime toLowerCase QueryParam as_string coerce_int).

Lemma handle_keeps_valid now uuid r (todos : Store) :
  Forall (record_valid is_datetime) todos ->
  Forall (record_valid is_datetime) (handle now uuid r todos).2.
Proof.
  intros Hok. destruct r as [rq|body|i|i body|i body|i|i|i]; simpl.
  - unfold get_todos. by destruct listQuerySchema.
  - unfold post_todos.
    destruct (createTodoSchema is_datetime body) as [input|] eqn:Hv; [|done].
    simpl. apply Forall_app. split; [done|]. constructor; [|done].
    exact (createTodoSchema_valid _ _ _ Hv).
  - unfold get_todo. by destruct List.find.
  - destruct (patch_todo_cases is_datetime now i body todos)
      as [[_ ->]|(n & u & Hf & [(issues & _ & ->)|(patch & Hv & ->)])];
      simpl; try done.
    apply Forall_insert; [done|]. eapply merge_valid; [done|].
    exact (Forall_lookup_1 _ _ _ _ Hok (proj1 Hf)).
  - destruct (put_todo_cases is_datetime now i body todos)
      as [(issues & _ & ->)
         |(input & Hv & [[_ ->]|(n & old & Hf & ->)])]; simpl; try done.
    + apply Forall_app. split; [done|]. constructor; [|done].
      exact (replaceTodoSchema_valid _ _ _ Hv).
    + apply Forall_insert; [done|].
      exact (replaceTodoSchema_valid _ _ _ Hv).
  - destruct (delete_todo_cases i todos) as [[_ ->]|(n & t & Hf & ->)];
      simpl; [done | by apply Forall_delete].
  - unfold post_done.
    destruct (set_status_cases done now i todos) as [[_ ->]|(n & t & Hf & ->)];
      simpl; [done|].
    apply Forall_insert; [done|].
    exact (Forall_lookup_1 _ _ _ _ Hok (proj1 Hf)).
  - unfold post_pending.
    destruct (set_status_cases pending now i todos)
      as [[_ ->]|(n & t & Hf & ->)]; simpl; [done|].
    apply Forall_insert; [done|].
    exact (Forall_lookup_1 _ _ _ _ Hok (proj1 Hf)).
Qed.

(** X8.  Every store reachable from the empty one is well formed: no two
    records share an id, and every record has a title of 1 to 200 code
    units, a description (if any) of at most 2000, a due date (if any) that
    passes zod's date-time test, and a priority (if any) that is 1, 2
    or 3. *)
Theorem reachable_store_is_well_formed c (todos : Store) :
  reachable c todos ->
  ids_unique todos /\ Forall (record_valid is_datetime) todos.
Proof.
  induction 1 as [c|c todos now uuid r _ [IHu IHv] Hc Hfresh].
  - split; constructor.
  - split.
    + eapply store_change_ids; [by apply (handle_store_change _ _ _ _ _ now)|done].
    + by apply handle_keeps_valid.
Qed.

End WellFormed.

(** ** What the body schemas accept and what they report *)

Lemma string_between_is_Some lo hi r :
  is_Some (Zod.string_between lo hi r) <-> string_within lo hi r.
Proof.
  unfold string_within. destruct r as [| |x|n|]; simpl;
    try (split; [by intros [? ?] | by intros (? & ? & ?)]).
  unfold Js.str_length.
  destruct (Z.leb_spec lo (Z.of_nat (String.length x))) as [Hlo|Hlo];
    destruct (Z.leb_spec (Z.of_nat (String.length x)) hi) as [Hhi|Hhi]; simpl;
    (split; [intros [? Hs] | intros (s & [= <-] & ?)]);
    try done; try lia.
  exists x. split; [done | lia].
Qed.

Lemma datetime_is_Some f r :
  is_Some (Zod.datetime f r) <-> datetime_string f r.
Proof.
  unfold datetime_string. destruct r as [| |x|n|]; simpl;
    try (split; [by intros [? ?] | by intros (? & ? & ?)]).
  destruct (f x) eqn:Hf; (split; [intros [? Hs] | intros (s & [= <-] & ?)]);
    try done; try congruence.
  by exists x.
Qed.

Lemma priority_literal_is_Some r :
  is_Some (Zod.priority_literal r) <-> one_two_three r.
Proof.
  unfold one_two_three. destruct r as [| |x|n|]; simpl;
    try (split; [by intros [? ?] | by intros [?|[?|?]]]).
  destruct (Z.eqb_spec n 1) as [->|]; [split; eauto|].
  destruct (Z.eqb_spec n 2) as [->|]; [split; eauto|].
  destruct (Z.eqb_spec n 3) as [->|]; [split; eauto|]. simpl.
  split; [by intros [? ?] | intros [[= ?]|[[= ?]|[= ?]]]; done].
Qed.

Lemma status_literal_is_Some r :
  is_Some (Zod.status_literal r) <-> pending_or_done r.
Proof.
  unfold pending_or_done. destruct r as [| |x|n|]; simpl;
    try (split; [by intros [? ?] | by intros [?|?]]).
  unfold Zod.status_of_string.
  destruct (String.eqb_spec x "pending") as [->|]; [split; eauto|].
  destruct (String.eqb_spec x "done") as [->|]; [split; eauto|].
  split; [by intros [? ?] | intros [[= ?]|[= ?]]; done].
Qed.

Lemma optional_is_Some {A} (schema : Raw -> option A) (P : Raw -> Prop) r :
  (is_Some (schema r) <-> P r) ->
  (is_Some (Zod.optional schema r) <-> absent_or P r).
Proof.
  intros H. unfold absent_or.
  destruct r; simpl; [split; eauto|..];
    (rewrite fmap_is_Some, H; split; [by right | by intros [?|?]]).
Qed.

Lemma optional_nullable_is_Some {A} (schema : Raw -> option A)
    (P : Raw -> Prop) r :
  (is_Some (schema r) <-> P r) ->
  (is_Some (Zod.optional_nullable schema r) <-> absent_null_or P r).
Proof.
  intros H. unfold absent_null_or.
  destruct r; simpl; [split; eauto | split; eauto |..];
    (rewrite fmap_is_Some, H; split; [by (right; right) | by intros [?|[?|?]]]).
Qed.

Lemma with_default_is_Some {A} (schema : Raw -> option A) (P : Raw -> Prop)
    (d : A) r :
  (is_Some (schema r) <-> P r) ->
  (is_Some (Zod.with_default (Zod.optional schema) d r) <-> absent_or P r).
Proof.
  intros H. unfold absent_or.
  destruct r; simpl; [split; eauto|..];
    (rewrite !fmap_is_Some, H; split; [by right | by intros [?|?]]).
Qed.

Lemma In_issue {A} (x path : string) (o : option A) :
  In x (Zod.issue path o) <-> x = path /\ ~ is_Some o.
Proof.
  destruct o as [a|]; simpl.
  - split; [done | intros [_ H]; by destruct H].
  - split; [intros [<-|[]]; split; [done | by intros [? ?]] | intros [-> _]; by left].
Qed.

Lemma issue_nil {A} (path : string) (o : option A) :
  Zod.issue path o = [] -> is_Some o.
Proof. by destruct o. Qed.

Section Reports.
Variable is_datetime : string -> bool.

Lemma createTodoSchema_report f :
  let t := Zod.string_between 1 200 (r_title f) in
  let d := Zod.optional (Zod.string_between 0 2000) (r_description f) in
  let du := Zod.optional (Zod.datetime is_datetime) (r_dueDate f) in
  let p := Zod.optional Zod.priority_literal (r_priority f) in
  match createTodoSchema is_datetime (BObject f) with
  | Valid _ => is_Some t /\ is_Some d /\ is_Some du /\ is_Some p
  | Invalid issues =>
      issues = Zod.issue "title" t ++ Zod.issue "description" d
               ++ Zod.issue "dueDate" du ++ Zod.issue "priority" p
      /\ ~ (is_Some t /\ is_Some d /\ is_Some du /\ is_Some p)
  end.
Proof.
  unfold createTodoSchema. cbv zeta.
  destruct (Zod.string_between 1 200 (r_title f)),
    (Zod.optional (Zod.string_between 0 2000) (r_description f)),
    (Zod.optional (Zod.datetime is_datetime) (r_dueDate f)),
    (Zod.optional Zod.priority_literal (r_priority f));
    (split; [by eauto|]); try done;
    intros (H1 & H2 & H3 & H4);
    (by destruct H1 || by destruct H2 || by destruct H3 || by destruct H4).
Qed.

Lemma updateTodoSchema_report f :
  let t := Zod.optional (Zod.string_between 1 200) (r_title f) in
  let d := Zod.optional (Zod.string_between 0 2000) (r_description f) in
  let s := Zod.optional Zod.status_literal (r_status f) in
  let du := Zod.optional_nullable (Zod.datetime is_datetime) (r_dueDate f) in
  let p := Zod.optional_nullable Zod.priority_literal (r_priority f) in
  match updateTodoSchema is_datetime (BObject f) with
  | Valid _ => is_Some t /\ is_Some d /\ is_Some s /\ is_Some du /\ is_Some p
  | Invalid issues =>
      issues = Zod.issue "title" t ++ Zod.issue "description" d
               ++ Zod.issue "status" s ++ Zod.issue "dueDate" du
               ++ Zod.issue "priority" p
      /\ ~ (is_Some t /\ is_Some d /\ is_Some s /\ is_Some du /\ is_Some p)
  end.
Proof.
  unfold updateTodoSchema. cbv zeta.
  destruct (Zod.optional (Zod.string_between 1 200) (r_title f)),
    (Zod.optional (Zod.string_between 0 2000) (r_description f)),
    (Zod.optional Zod.status_literal (r_status f)),
    (Zod.optional_nullable (Zod.datetime is_datetime) (r_dueDate f)),
    (Zod.optional_nullable Zod.priority_literal (r_priority f));
    (split; [by eauto|]); try done;
    intros (H1 & H2 & H3 & H4 & H5);
    (by destruct H1 || by destruct H2 || by destruct H3 || by destruct H4
     || by destruct H5).
Qed.

Lemma replaceTodoSchema_report f :
  let t := Zod.string_between 1 200 (r_title f) in
  let d := Zod.optional (Zod.string_between 0 2000) (r_description f) in
  let du := Zod.optional (Zod.datetime is_datetime) (r_dueDate f) in
  let p := Zod.optional Zod.priority_literal (r_priority f) in
  let s := Zod.with_default (Zod.optional Zod.status_literal) pending
                            (r_status f) in
  match replaceTodoSchema is_datetime f with
  | Valid _ => is_Some t /\ is_Some d /\ is_Some du /\ is_Some p /\ is_Some s
  | Invalid issues =>
      issues = Zod.issue "title" t ++ Zod.issue "description" d
               ++ Zod.issue "dueDate" du ++ Zod.issue "priority" p
               ++ Zod.issue "status" s
      /\ ~ (is_Some t /\ is_Some d /\ is_Some du /\ is_Some p /\ is_Some s)
  end.
Proof.
  unfold replaceTodoSchema. cbv zeta.
  destruct (Zod.string_between 1 200 (r_title f)),
    (Zod.optional (Zod.string_between 0 2000) (r_description f)),
    (Zod.optional (Zod.datetime is_datetime) (r_dueDate f)),
    (Zod.optional Zod.priority_literal (r_priority f)),
    (Zod.with_default (Zod.optional Zod.status_literal) pending (r_status f));
    (split; [by eauto|]); try done;
    intros (H1 & H2 & H3 & H4 & H5);
    (by destruct H1 || by destruct H2 || by destruct H3 || by destruct H4
     || by destruct H5).
Qed.

Lemma not_is_Some_iff {A} (o : option A) (P : Prop) :
  (is_Some o <-> P) -> (~ is_Some o <-> ~ P).
Proof. tauto. Qed.

(** X9.  The three body schemas accept exactly what validators.ts says,
    and a validation error names exactly the properties that break it.
    For an object body: the create schema accepts it if and only if the
    title is a string of 1 to 200 code units, the description is missing or
    a string of at most 2000, the due date is missing or a date-time
    string, and the priority is missing or 1, 2 or 3; the update schema
    accepts it if and only if each of title, description and status is
    missing or valid and each of due date and priority is missing, [null]
    or valid; the replace schema of [PUT] asks what the create schema asks
    and a status that is missing, [pending] or [done].  When a schema
    rejects the body, its error is not empty and lists a path if and only if
    that path is a property of the schema whose value breaks the rule.  A
    body that is not an object is rejected at the root path by the create
    and the update schema. *)
Theorem schemas_report_exactly_the_offending_fields f :
  let title_ok := string_within 1 200 (r_title f) in
  let title_opt_ok := absent_or (string_within 1 200) (r_title f) in
  let description_ok := absent_or (string_within 0 2000) (r_description f) in
  let status_ok := absent_or pending_or_done (r_status f) in
  let dueDate_ok := absent_or (datetime_string is_datetime) (r_dueDate f) in
  let dueDate_null_ok :=
    absent_null_or (datetime_string is_datetime) (r_dueDate f) in
  let priority_ok := absent_or one_two_three (r_priority f) in
  let priority_null_ok := absent_null_or one_two_three (r_priority f) in
  ((exists input, createTodoSchema is_datetime (BObject f) = Valid input)
   <-> title_ok /\ description_ok /\ dueDate_ok /\ priority_ok)
  /\ (forall issues,
        createTodoSchema is_datetime (BObject f) = Invalid issues ->
        issues <> []
        /\ forall x, In x issues
                     <-> (x = "title"%string /\ ~ title_ok)
                         \/ (x = "description"%string /\ ~ description_ok)
                         \/ (x = "dueDate"%string /\ ~ dueDate_ok)
                         \/ (x = "priority"%string /\ ~ priority_ok))
  /\ ((exists patch, updateTodoSchema is_datetime (BObject f) = Valid patch)
      <-> title_opt_ok /\ description_ok /\ status_ok
          /\ dueDate_null_ok /\ priority_null_ok)
  /\ (forall issues,
        updateTodoSchema is_datetime (BObject f) = Invalid issues ->
        issues <> []
        /\ forall x, In x issues
                     <-> (x = "title"%string /\ ~ title_opt_ok)
                         \/ (x = "description"%string /\ ~ description_ok)
                         \/ (x = "status"%string /\ ~ status_ok)
                         \/ (x = "dueDate"%string /\ ~ dueDate_null_ok)
                         \/ (x = "priority"%string /\ ~ priority_null_ok))
  /\ ((exists input, replaceTodoSchema is_datetime f = Valid input)
      <-> title_ok /\ description_ok /\ dueDate_ok /\ priority_ok
          /\ status_ok)
  /\ (forall issues,
        replaceTodoSchema is_datetime f = Invalid issues ->
        issues <> []
        /\ forall x, In x issues
                     <-> (x = "title"%string /\ ~ title_ok)
                         \/ (x = "description"%string /\ ~ description_ok)
                         \/ (x = "dueDate"%string /\ ~ dueDate_ok)
                         \/ (x = "priority"%string /\ ~ priority_ok)
                         \/ (x = "status"%string /\ ~ status_ok))
  /\ createTodoSchema is_datetime BNotObject = Invalid [""%string]
  /\ updateTodoSchema is_datetime BNotObject = Invalid [""%string].
Proof.
  intros title_ok title_opt_ok description_ok status_ok dueDate_ok
         dueDate_null_ok priority_ok priority_null_ok.
  pose proof (string_between_is_Some 1 200 (r_title f)) as Ht.
  pose proof (optional_is_Some _ _ _ (string_between_is_Some 1 200 (r_title f)))
    as Hto.
  pose proof (optional_is_Some _ _ _
                (string_between_is_Some 0 2000 (r_description f))) as Hd.
  pose proof (optional_is_Some _ _ _ (status_literal_is_Some (r_status f)))
    as Hs.
  pose proof (with_default_is_Some _ _ pending _
                (status_literal_is_Some (r_status f))) as Hsd.
  pose proof (optional_is_Some _ _ _
                (datetime_is_Some is_datetime (r_dueDate f))) as Hdu.
  pose proof (optional_nullable_is_Some _ _ _
                (datetime_is_Some is_datetime (r_dueDate f))) as Hdun.
  pose proof (optional_is_Some _ _ _ (priority_literal_is_Some (r_priority f)))
    as Hp.
  pose proof (optional_nullable_is_Some _ _ _
                (priority_literal_is_Some (r_priority f))) as Hpn.
  fold title_ok in Ht. fold title_opt_ok in Hto.
  fold description_ok in Hd. fold status_ok in Hs, Hsd.
  fold dueDate_ok in Hdu. fold dueDate_null_ok in Hdun.
  fold priority_ok in Hp. fold priority_null_ok in Hpn.
  split; [|split; [|split; [|split; [|split; [|split; [|by split]]]]]].
  - pose proof (createTodoSchema_report f) as Hr. cbv zeta in Hr.
    rewrite <- Ht, <- Hd, <- Hdu, <- Hp.
    destruct (createTodoSchema is_datetime (BObject f)) as [input|issues].
    + split; [done | by eexists].
    + split; [by intros [? ?] | intros H; by destruct (proj2 Hr)].
  - intros issues E. pose proof (createTodoSchema_report f) as Hr.
    cbv zeta in Hr. rewrite E in Hr. destruct Hr as [-> Hnot]. split.
    + intros Hnil. apply Hnot.
      repeat (apply app_eq_nil in Hnil as [?%issue_nil Hnil]).
      apply issue_nil in Hnil. by repeat split.
    + intros x. rewrite !in_app_iff, !In_issue.
      by rewrite (not_is_Some_iff _ _ Ht), (not_is_Some_iff _ _ Hd),
                 (not_is_Some_iff _ _ Hdu), (not_is_Some_iff _ _ Hp).
  - pose proof (updateTodoSchema_report f) as Hr. cbv zeta in Hr.
    rewrite <- Hto, <- Hd, <- Hs, <- Hdun, <- Hpn.
    destruct (updateTodoSchema is_datetime (BObject f)) as [patch|issues].
    + split; [done | by eexists].
    + split; [by intros [? ?] | intros H; by destruct (proj2 Hr)].
  - intros issues E. pose proof (updateTodoSchema_report f) as Hr.
    cbv zeta in Hr. rewrite E in Hr. destruct Hr as [-> Hnot]. split.
    + intros Hnil. apply Hnot.
      repeat (apply app_eq_nil in Hnil as [?%issue_nil Hnil]).
      apply issue_nil in Hnil. by repeat split.
    + intros x. rewrite !in_app_iff, !In_issue.
      by rewrite (not_is_Some_iff _ _ Hto), (not_is_Some_iff _ _ Hd),
                 (not_is_Some_iff _ _ Hs), (not_is_Some_iff _ _ Hdun),
                 (not_is_Some_iff _ _ Hpn).
  - pose proof (replaceTodoSchema_report f) as Hr. cbv zeta in Hr.
    rewrite <- Ht, <- Hd, <- Hdu, <- Hp, <- Hsd.
    destruct (replaceTodoSchema is_datetime f) as [input|issues].
    + split; [done | by eexists].
    + split; [by intros [? ?] | intros H; by destruct (proj2 Hr)].
  - intros issues E. pose proof (replaceTodoSchema_report f) as Hr.
    cbv zeta in Hr. rewrite E in Hr. destruct Hr as [-> Hnot]. split.
    + intros Hnil. apply Hnot.
      repeat (apply app_eq_nil in Hnil as [?%issue_nil Hnil]).
      apply issue_nil in Hnil. by repeat split.
    + intros x. rewrite !in_app_iff, !In_issue.
      by rewrite (not_is_Some_iff _ _ Ht), (not_is_Some_iff _ _ Hd),
                 (not_is_Some_iff _ _ Hdu), (not_is_Some_iff _ _ Hp),
                 (not_is_Some_iff _ _ Hsd).
Qed.

End Reports.

(** The body [{ "title": 5 }] is rejected by the create schema at "title"
    alone, because 5 is not a string of 1 to 200 code units; the patch
    [{ "status": "pending", "dueDate": null }] meets every rule of the
    update schema and is accepted. *)
Lemma schemas_report_exactly_the_offending_fields_witness :
  createTodoSchema Sample.is_datetime bad_body = Invalid ["title"%string]
  /\ ~ string_within 1 200 (RNumber 5)
  /\ exists patch, updateTodoSchema Sample.is_datetime patch_body = Valid patch.
Proof.
  pose proof (schemas_report_exactly_the_offending_fields Sample.is_datetime
                (mkRawBody (RNumber 5) RAbsent RAbsent RAbsent RAbsent))
    as (_ & Hbad & _).
  pose proof (schemas_report_exactly_the_offending_fields Sample.is_datetime
                (mkRawBody RAbsent RAbsent (RString "pending") RNull RAbsent))
    as (_ & _ & Hgood & _).
  split; [reflexivity | split].
  - destruct (Hbad ["title"%string] eq_refl) as [_ Hin].
    destruct (proj1 (Hin "title"%string) (or_introl eq_refl))
      as [[_ H]|[[H _]|[[H _]|[H _]]]]; [exact H | discriminate H..].
  - apply Hgood. unfold absent_or, absent_null_or, pending_or_done; simpl.
    split; [by left | split; [by left | split; [right; by left |
      split; [right; by left | by left]]]].
Defined.

(** ** More on the list endpoint *)

Lemma filter_twice {A} (f g : A -> bool) (l : list A) :
  List.filter g (List.filter f l) = List.filter (fun x => f x && g x) l.
Proof.
  induction l as [|x l IH]; simpl; [done|].
  destruct (f x); simpl; [|done]. destruct (g x); by rewrite IH.
Qed.

Lemma filter_all {A} (l : list A) : List.filter (fun _ => true) l = l.
Proof. induction l as [|x l IH]; simpl; by rewrite ?IH. Qed.

Lemma sort_insert_stable {A} (cmp : A -> A -> Z) (P : A -> bool) x l :
  (forall a b, P a = true -> P b = true -> cmp a b <= 0) ->
  List.filter P (Js.sort_insert cmp x l) = List.filter P (x :: l).
Proof.
  intros Htie. induction l as [|y l IH]; [done|]. simpl in *.
  destruct (Z.ltb_spec 0 (cmp x y)) as [Hxy|Hxy]; [|done]. simpl.
  rewrite IH. destruct (P x) eqn:Hx, (P y) eqn:Hy; try done.
  pose proof (Htie x y Hx Hy). lia.
Qed.

Lemma sort_stable {A} (cmp : A -> A -> Z) (P : A -> bool) l :
  (forall a b, P a = true -> P b = true -> cmp a b <= 0) ->
  List.filter P (Js.sort cmp l) = List.filter P l.
Proof.
  intros Htie. induction l as [|x l IH]; [done|]. simpl.
  rewrite sort_insert_stable by done. simpl. by rewrite IH.
Qed.

Lemma JsValue_eqb_eq a b : JsValue_eqb a b = true -> a = b.
Proof.
  destruct a, b; simpl; try done.
  - by intros ->%String.eqb_eq.
  - by intros ->%Z.eqb_eq.
Qed.

Lemma key_le_refl order v : key_le order v v.
Proof.
  destruct v as [|x|x]; simpl; [done| |destruct order; lia].
  destruct order; apply string_leb_refl.
Qed.

Lemma slice_length {A} (l : list A) (start count : Z) :
  0 <= start -> 0 <= count ->
  Z.of_nat (length (Js.slice l start (start + count)))
  = Z.min count (Z.max 0 (Z.of_nat (length l) - start)).
Proof.
  intros Hs Hc. rewrite slice_take_drop by done.
  rewrite length_take, length_drop. lia.
Qed.

Section MoreQueryFacts.
Variable toLowerCase : string -> string.
Variable QueryParam : Type.
Variable as_string : QueryParam -> option string.
Variable coerce_int : QueryParam -> option Z.
Implicit Types (parsed : ListQuery) (todos : Store).

Lemma filtered_as_one_filter parsed todos :
  filtered toLowerCase parsed todos
  = List.filter (passes_filters toLowerCase parsed) todos.
Proof.
  unfold filtered, passes_filters.
  destruct (q_q parsed) as [q|]; [destruct (String.eqb q "")|];
    destruct (q_status parsed) as [s|];
    (destruct (q_priority parsed) as [p|]; [destruct (p =? 0)|]);
    simpl; rewrite ?filter_twice, ?filter_all;
    (reflexivity || (apply List.filter_ext; intros t;
                     by rewrite ?andb_true_r, ?andb_assoc)).
Qed.

Lemma prefix_spec (s1 s2 : string) :
  String.prefix s1 s2 = true <-> exists post, s2 = (s1 ++ post)%string.
Proof.
  revert s2. induction s1 as [|a s1 IH]; intros s2.
  - split; [intros _; by exists s2 | by destruct s2].
  - destruct s2 as [|b s2]; simpl.
    + split; [discriminate | by intros [post ?]].
    + destruct (Ascii.ascii_dec a b) as [->|Hne].
      * rewrite IH. split; intros [post H]; exists post.
        -- simpl. by rewrite H.
        -- simpl in H. by injection H.
      * split; [discriminate|]. intros [post H]. simpl in H.
        injection H as Hab _. by destruct Hne.
Qed.

Lemma includes_spec (hay needle : string) :
  Js.includes hay needle = true <-> contains hay needle.
Proof.
  induction hay as [|c hay IH].
  - cbn [Js.includes]. rewrite orb_false_r, prefix_spec. split.
    + intros [post H]. by exists ""%string, post.
    + intros (pre & post & H). destruct pre; [by exists post | discriminate].
  - cbn [Js.includes]. rewrite orb_true_iff, prefix_spec, IH. split.
    + intros [[post H]|(pre & post & H)].
      * by exists ""%string, post.
      * exists (String c pre), post. simpl. by rewrite H.
    + intros (pre & post & H). destruct pre as [|c' pre].
      * left. by exists post.
      * right. exists pre, post. simpl in H. by injection H.
Qed.

Lemma TodoStatus_eqb_eq a b : TodoStatus_eqb a b = true <-> a = b.
Proof. destruct a, b; simpl; split; (done || discriminate). Qed.

Lemma and3_iff (A1 A2 A3 B1 B2 B3 : Prop) :
  (A1 <-> B1) -> (A2 <-> B2) -> (A3 <-> B3) ->
  ((A1 /\ A2) /\ A3 <-> B1 /\ B2 /\ B3).
Proof. tauto. Qed.

Lemma passes_filters_asked parsed t :
  passes_filters toLowerCase parsed t = true <-> asked_of toLowerCase parsed t.
Proof.
  unfold passes_filters, asked_of, matches_q.
  rewrite !andb_true_iff. apply and3_iff.
  - destruct (q_q parsed) as [q|]; [|split; [by intros _ q' ? | done]].
    rewrite orb_true_iff, orb_true_iff, String.eqb_eq, !includes_spec.
    split.
    + intros [->|H] q' [= <-] Hq; [done|]. by destruct (description t).
    + intros H. destruct (String.string_dec q "") as [->|Hq]; [by left|].
      right. specialize (H q eq_refl Hq). by destruct (description t).
  - destruct (q_status parsed) as [s|]; [|split; [by intros _ s' ? | done]].
    rewrite TodoStatus_eqb_eq. split; [by intros -> s' [= <-] | eauto].
  - destruct (q_priority parsed) as [p|]; [|split; [by intros _ p' ? | done]].
    rewrite orb_true_iff, Z.eqb_eq. split.
    + intros [->|H] p' [= <-] Hp; [done|].
      destruct (priority t) as [x|]; simpl in H; [|discriminate].
      apply Z.eqb_eq in H. by subst.
    + intros H. destruct (Z.eq_dec p 0) as [->|Hp]; [by left|].
      right. rewrite (H p eq_refl Hp). simpl. apply Z.eqb_refl.
Qed.

(** X10.  The three filters of [GET /todos] together keep exactly the
    records of the store that pass every filter the query gives (text,
    status, priority; an empty [q] asks nothing), in store order: a record
    is counted in [total] if and only if it is in the store and passes.
    Passing is what the specification says: the lower-cased [q] occurs in
    the lower-cased title or description, the status is the one asked for,
    the priority is the one asked for. *)
Theorem filters_keep_exactly_the_matches parsed todos :
  filtered toLowerCase parsed todos
  = List.filter (passes_filters toLowerCase parsed) todos
  /\ (forall t, In t (filtered toLowerCase parsed todos)
                <-> In t todos /\ passes_filters toLowerCase parsed t = true)
  /\ total (query toLowerCase parsed todos)
     = Z.of_nat (length (List.filter (passes_filters toLowerCase parsed) todos))
  /\ (forall t, passes_filters toLowerCase parsed t = true
                <-> asked_of toLowerCase parsed t)
  /\ (forall t, In t (filtered toLowerCase parsed todos)
                <-> In t todos /\ asked_of toLowerCase parsed t)
  /\ sublist (filtered toLowerCase parsed todos) todos.
Proof.
  split; [apply filtered_as_one_filter|]. split; [|split; [|split; [|split]]].
  - intros t. rewrite filtered_as_one_filter. apply List.filter_In.
  - simpl. unfold sorted. by rewrite sort_length, filtered_as_one_filter.
  - apply passes_filters_asked.
  - intros t. rewrite filtered_as_one_filter, List.filter_In.
    by rewrite passes_filters_asked.
  - rewrite filtered_as_one_filter. generalize (passes_filters toLowerCase parsed).
    intros f. induction todos as [|u todos IH]; simpl; [constructor|].
    destruct (f u); by constructor.
Qed.

(** X11.  Ties keep their store order: for every value [v] of the sort
    key (a date, a priority, or "missing"), the records with key [v]
    appear in the sorted list in the order they have in the store. *)
Theorem ties_keep_store_order parsed todos v :
  let sortBy := q_sortBy_or_default parsed in
  List.filter (has_key sortBy v) (sorted toLowerCase parsed todos)
  = List.filter (has_key sortBy v) (filtered toLowerCase parsed todos).
Proof.
  intros sortBy. apply sort_stable. intros a b Ha Hb.
  apply comparator_key_le.
  apply JsValue_eqb_eq in Ha, Hb. fold sortBy. rewrite Ha, Hb.
  apply key_le_refl.
Qed.

Lemma filters_in parsed todos t :
  In t (filtered toLowerCase parsed todos)
  <-> In t todos /\ passes_filters toLowerCase parsed t = true.
Proof. rewrite filtered_as_one_filter. apply List.filter_In. Qed.

Lemma q_int_bounds lo hi v n :
  q_int QueryParam coerce_int lo hi v = Some (Some n) ->
  lo <= n /\ forall h, hi = Some h -> n <= h.
Proof.
  unfold q_int. destruct v as [x|]; [|discriminate].
  destruct (coerce_int x) as [m|]; [|discriminate].
  destruct (Z.leb_spec lo m); simpl; [|discriminate].
  destruct hi as [h|].
  - destruct (Z.leb_spec m h); [|discriminate].
    intros [= <-]. split; [done|]. by intros ? [= <-].
  - intros [= <-]. split; [done|]. discriminate.
Qed.

Lemma listQuerySchema_bounds rq parsed :
  listQuerySchema QueryParam as_string coerce_int rq = Valid parsed ->
  1 <= q_page_or_default parsed
  /\ 1 <= q_pageSize_or_default parsed <= 100
  /\ (forall p, q_priority parsed = Some p -> 1 <= p <= 3).
Proof.
  unfold listQuerySchema.
  destruct (q_string _ _ _) as [q|]; [|discriminate].
  destruct (q_status_literal _ _ _) as [s|]; [|discriminate].
  destruct (q_int _ _ 1 (Some 3) _) as [p|] eqn:Hp; [|discriminate].
  destruct (q_enum _ _ sortBy_of_string _) as [sb|]; [|discriminate].
  destruct (q_enum _ _ order_of_string _) as [o|]; [|discriminate].
  destruct (q_int _ _ 1 None _) as [pg|] eqn:Hpg; [|discriminate].
  destruct (q_int _ _ 1 (Some 100) _) as [ps|] eqn:Hps; [|discriminate].
  intros [= <-]. unfold q_page_or_default, q_pageSize_or_default. simpl.
  split; [|split].
  - destruct pg as [n|]; simpl; [|lia]. by apply q_int_bounds in Hpg as [? _].
  - destruct ps as [n|]; simpl; [|lia].
    apply q_int_bounds in Hps as [? Hhi]. specialize (Hhi 100 eq_refl). lia.
  - intros n ->. apply q_int_bounds in Hp as [? Hhi].
    specialize (Hhi 3 eq_refl). lia.
Qed.

Lemma query_data_length parsed todos :
  1 <= q_page_or_default parsed -> 1 <= q_pageSize_or_default parsed ->
  let e := query toLowerCase parsed todos in
  Z.of_nat (length (data e))
  = Z.min (pageSize e) (Z.max 0 (total e - (page e - 1) * pageSize e)).
Proof. intros Hp Hs. simpl. apply slice_length; nia. Qed.

(** X12.  Whatever the query string, [GET /todos] leaves the store alone
    and answers either 400 with the issues of the query, or 200 with an
    envelope whose page is at least 1, whose page size is between 1 and 100,
    whose [data] holds at most [pageSize] records, each of them a record of
    the store that passes the filters, and whose [total] is not above the
    size of the store. *)
Theorem list_answer_is_bounded rq todos :
  (get_todos toLowerCase QueryParam as_string coerce_int rq todos).2 = todos
  /\ ((exists issues,
         listQuerySchema QueryParam as_string coerce_int rq = Invalid issues
         /\ (get_todos toLowerCase QueryParam as_string coerce_int rq todos).1
            = validation_error issues)
      \/ (exists parsed e,
            listQuerySchema QueryParam as_string coerce_int rq = Valid parsed
            /\ (get_todos toLowerCase QueryParam as_string coerce_int rq
                          todos).1
               = json (EnvelopeJson e)
            /\ 1 <= page e
            /\ 1 <= pageSize e <= 100
            /\ Z.of_nat (length (data e)) <= pageSize e
            /\ Forall (fun t => In t todos
                                /\ passes_filters toLowerCase parsed t = true)
                      (data e)
            /\ 0 <= total e <= Z.of_nat (length todos))).
Proof.
  unfold get_todos.
  destruct (listQuerySchema QueryParam as_string coerce_int rq)
    as [parsed|issues] eqn:Hv; simpl; (split; [done|]).
  - right. exists parsed, (query toLowerCase parsed todos).
    destruct (listQuerySchema_bounds _ _ Hv) as (Hpg & Hps & _).
    split; [done|]. split; [done|]. split; [done|]. split; [done|].
    split; [|split].
    + rewrite query_data_length by lia. simpl. lia.
    + rewrite query_data by lia. apply Forall_take, Forall_drop.
      apply Forall_forall. intros t Ht.
      apply list_elem_of_In in Ht.
      apply (Permutation_in _ (sorted_Permutation toLowerCase parsed todos))
        in Ht.
      by apply (proj1 (filters_in parsed todos t)).
    + simpl. unfold sorted. rewrite sort_length, filtered_as_one_filter.
      pose proof (List.filter_length_le
                    (passes_filters toLowerCase parsed) todos). lia.
  - left. by exists issues.
Qed.

(** X13.  The number of records on a page: for [page >= 1] and
    [pageSize >= 1], [data] holds [pageSize] records, or what is left of the
    [total] after the earlier pages if that is less; it is empty exactly
    when the page lies beyond [totalPages], and [totalPages] is 0 exactly
    when nothing matches. *)
Theorem page_holds_what_is_left parsed todos :
  1 <= q_page_or_default parsed ->
  1 <= q_pageSize_or_default parsed ->
  let e := query toLowerCase parsed todos in
  Z.of_nat (length (data e))
  = Z.min (pageSize e) (Z.max 0 (total e - (page e - 1) * pageSize e))
  /\ (data e = [] <-> totalPages e < page e)
  /\ (totalPages e = 0 <-> total e = 0).
Proof.
  intros Hp Hs e.
  assert (Hlen : Z.of_nat (length (data e))
                 = Z.min (pageSize e)
                         (Z.max 0 (total e - (page e - 1) * pageSize e)))
    by (by apply query_data_length).
  assert (Hceil : (totalPages e - 1) * pageSize e < total e
                  <= totalPages e * pageSize e).
  { apply ceil_div_bounds. simpl. lia. }
  assert (Htotal : 0 <= total e) by (simpl; lia).
  assert (Hpage : page e = q_page_or_default parsed) by reflexivity.
  assert (Hsize : pageSize e = q_pageSize_or_default parsed) by reflexivity.
  split; [done|]. split; [|nia].
  rewrite <- length_zero_iff_nil. split; intros H.
  - assert (Hz : Z.of_nat (length (data e)) = 0) by (by rewrite H).
    rewrite Hlen in Hz. nia.
  - assert (Z.of_nat (length (data e)) = 0) by (rewrite Hlen; nia). lia.
Qed.

End MoreQueryFacts.

(** ** Writing the same record twice *)

Section LastWriteWins.
Variable is_datetime : string -> bool.
Implicit Types (todos : Store) (body : Body) (now i : string).

(** X14.  The status shortcuts change the status and the update time of
    the first record with the id and nothing else, and the later of two
    shortcuts on one id wins: answer and store are what the later one alone
    would have given. *)
Theorem later_status_shortcut_wins s1 s2 now1 now2 i todos :
  set_status s2 now2 i (set_status s1 now1 i todos).2
  = set_status s2 now2 i todos
  /\ (forall n t, first_at i todos n t ->
        set_status s1 now1 i todos
        = (json (TodoJson (mkTodo (id t) (title t) (description t) s1
                                  (createdAt t) now1 (dueDate t)
                                  (priority t))),
           <[n := mkTodo (id t) (title t) (description t) s1 (createdAt t)
                         now1 (dueDate t) (priority t)]> todos)).
Proof.
  split; [|intros n t Hf; by apply set_status_found].
  destruct (set_status_cases s1 now1 i todos) as [[_ ->]|(n & t & Hf & ->)];
    [done|]. simpl.
  set (t1 := mkTodo _ _ _ s1 _ now1 _ _).
  assert (Hf1 : first_at i (<[n := t1]> todos) n t1)
    by (eapply first_at_insert; [done | apply Hf]).
  rewrite (set_status_found _ _ _ _ _ _ Hf1), (set_status_found _ _ _ _ _ _ Hf).
  simpl. by rewrite list_insert_insert_eq.
Qed.

(** X15.  The later of two [PUT]s on an id that is in the store wins: when
    the second body is valid, answer and store are what the second [PUT]
    alone would have given (in particular the creation time is still the
    original one), whether or not the first body was valid. *)
Theorem later_put_wins now1 now2 i body1 body2 todos n old input2 :
  first_at i todos n old ->
  replaceTodoSchema is_datetime (put_body body2) = Valid input2 ->
  put_todo is_datetime now2 i body2 (put_todo is_datetime now1 i body1 todos).2
  = put_todo is_datetime now2 i body2 todos.
Proof.
  intros Hf Hv2.
  destruct (replaceTodoSchema is_datetime (put_body body1))
    as [input1|issues] eqn:Hv1.
  - rewrite (put_todo_overwritten _ now1 _ _ _ _ _ _ Hv1 Hf). simpl.
    set (r1 := mkTodo _ _ _ _ _ now1 _ _).
    assert (Hf1 : first_at i (<[n := r1]> todos) n r1)
      by (by eapply first_at_insert).
    rewrite (put_todo_overwritten _ now2 _ _ _ _ _ _ Hv2 Hf1),
            (put_todo_overwritten _ now2 _ _ _ _ _ _ Hv2 Hf).
    simpl. by rewrite list_insert_insert_eq.
  - unfold put_todo at 2. by rewrite Hv1.
Qed.

Lemma put_body_default_status f input :
  r_status f = RAbsent ->
  replaceTodoSchema is_datetime (put_body (BObject f)) = Valid input ->
  p_status input = pending.
Proof.
  intros Hs. unfold put_body, replaceTodoSchema. rewrite Hs. simpl.
  destruct (Zod.string_between 1 200 (r_title f)); [|discriminate].
  destruct (Zod.optional (Zod.string_between 0 2000) (r_description f));
    [|discriminate].
  destruct (Zod.optional (Zod.datetime is_datetime) (r_dueDate f));
    [|discriminate].
  destruct (Zod.optional Zod.priority_literal (r_priority f));
    [|discriminate].
  by intros [= <-].
Qed.

(** X16.  A [PUT] whose body has no [status] stores the record as
    [pending], also when it overwrites a record that was [done]: whenever
    such a request answers with a record, that record's status is
    [pending], and it is the record found under the id afterwards. *)
Theorem put_without_status_is_pending now i f todos c t todos' :
  r_status f = RAbsent ->
  put_todo is_datetime now i (BObject f) todos
  = (mkResponse c (TodoJson t), todos') ->
  status t = pending
  /\ get_todo i todos' = (json (TodoJson t), todos').
Proof.
  intros Hs H.
  destruct (put_todo_cases is_datetime now i (BObject f) todos)
    as [(issues & _ & E)|(input & Hv & [[Hfree E]|(n & old & Hf & E)])];
    rewrite E in H; [discriminate| |]; injection H as <- <- <-.
  - split; [by eapply put_body_default_status|].
    eapply get_todo_found. by apply first_at_append.
  - split; [by eapply put_body_default_status|].
    eapply get_todo_found. by eapply first_at_insert.
Qed.

Lemma merge_twice now1 now2 current patch :
  merge now2 (merge now1 current patch) patch = merge now2 current patch.
Proof.
  destruct patch as [t d s du p]. unfold merge. simpl. f_equal.
  - by destruct t.
  - by destruct d.
  - by destruct s.
  - by destruct du.
Qed.

(** X17.  [PATCH] is idempotent: sending the same body twice to the same id
    gives the answer and the store that sending it once, at the later time,
    would have given. *)
Theorem patch_twice_is_patch_once now1 now2 i body todos :
  patch_todo is_datetime now2 i body (patch_todo is_datetime now1 i body todos).2
  = patch_todo is_datetime now2 i body todos.
Proof.
  destruct (patch_todo_cases is_datetime now1 i body todos)
    as [[_ ->]|(n & u & Hf & [(issues & _ & ->)|(patch & Hv & ->)])];
    try done.
  simpl. set (u1 := merge now1 u patch).
  assert (Hf1 : first_at i (<[n := u1]> todos) n u1)
    by (eapply first_at_insert; [done | apply Hf]).
  rewrite (patch_todo_found _ _ _ _ _ _ _ _ Hf1 Hv),
          (patch_todo_found _ _ _ _ _ _ _ _ Hf Hv).
  subst u1. by rewrite merge_twice, list_insert_insert_eq.
Qed.

End LastWriteWins.

(** ** The further properties at concrete inputs *)

Lemma store_id_free_u : id_free "u" Sample.store.
Proof. repeat constructor; discriminate. Defined.

Lemma get_todo_finds_the_record_witness :
  id_free "z" Sample.store
  /\ first_at "b" Sample.store 1 Sample.B
  /\ get_todo "z" Sample.store = (not_found, Sample.store)
  /\ get_todo "b" Sample.store = (json (TodoJson Sample.B), Sample.store).
Proof.
  split; [exact store_id_free_z|]. split; [exact store_first_at_b|]. split.
  - exact (proj1 (proj2 (get_todo_finds_the_record "z" Sample.store))
                 store_id_free_z).
  - exact (proj2 (proj2 (get_todo_finds_the_record "b" Sample.store))
                 1%nat Sample.B store_first_at_b).
Defined.

Lemma written_record_is_read_back_witness :
  id_free "u" Sample.store
  /\ sample_handle Sample.t3 "u" (PATCH_todo "b" patch_body) Sample.store
     = (mkResponse 200 (TodoJson B_patched), [Sample.C; B_patched; Sample.A])
  /\ writes_record (@PATCH_todo Sample.QueryParam "b" patch_body) = true
  /\ get_todo "b" [Sample.C; B_patched; Sample.A]
     = (json (TodoJson B_patched), [Sample.C; B_patched; Sample.A]).
Proof.
  split; [exact store_id_free_u|]. split; [reflexivity|].
  split; [reflexivity|].
  exact (written_record_is_read_back
           Sample.is_datetime Sample.toLowerCase Sample.QueryParam
           Sample.as_string Sample.coerce_int
           Sample.t3 "u" (PATCH_todo "b" patch_body) Sample.store
           200 B_patched [Sample.C; B_patched; Sample.A]
           store_id_free_u eq_refl eq_refl).
Defined.

Lemma deleted_record_is_gone_witness :
  ids_unique Sample.store
  /\ first_at "b" Sample.store 1 Sample.B
  /\ get_todo "b" [Sample.C; Sample.A] = (not_found, [Sample.C; Sample.A])
  /\ set_status done Sample.t3 "b" [Sample.C; Sample.A]
     = (not_found, [Sample.C; Sample.A])
  /\ S (length [Sample.C; Sample.A]) = length Sample.store.
Proof.
  split; [exact store_ids_unique|]. split; [exact store_first_at_b|].
  exact (deleted_record_is_gone "b" Sample.store 1 Sample.B done Sample.t3
           store_ids_unique store_first_at_b).
Defined.

Lemma store_size_after_request_witness :
  is_delete (@DELETE_todo Sample.QueryParam "b") = true
  /\ code (sample_handle Sample.t3 "u" (DELETE_todo "b") Sample.store).1 = 200
  /\ S (length (sample_handle Sample.t3 "u" (DELETE_todo "b") Sample.store).2)
     = length Sample.store
  /\ code (sample_handle Sample.t3 "u" (POST_todos good_body) Sample.store).1
     = 201
  /\ exists t,
       payload (sample_handle Sample.t3 "u" (POST_todos good_body)
                              Sample.store).1 = TodoJson t
       /\ (sample_handle Sample.t3 "u" (POST_todos good_body) Sample.store).2
          = Sample.store ++ [t].
Proof.
  split; [reflexivity|]. split; [reflexivity|]. split.
  - exact (proj1 (proj2 (store_size_after_request
                           Sample.is_datetime Sample.toLowerCase
                           Sample.QueryParam Sample.as_string
                           Sample.coerce_int
                           Sample.t3 "u" (DELETE_todo "b") Sample.store))
                 eq_refl eq_refl).
  - split; [reflexivity|].
    exact (proj1 (store_size_after_request
                    Sample.is_datetime Sample.toLowerCase
                    Sample.QueryParam Sample.as_string Sample.coerce_int
                    Sample.t3 "u" (POST_todos good_body) Sample.store)
                 eq_refl).
Defined.

Lemma other_records_are_untouched_witness :
  target (@PUT_todo Sample.QueryParam "b" good_body) = Some "b"%string
  /\ List.filter (fun t => negb (has_id "b" t))
        (sample_handle Sample.t3 "u" (PUT_todo "b" good_body) Sample.store).2
     = [Sample.C; Sample.A].
Proof.
  split; [reflexivity|].
  exact (other_records_are_untouched
           Sample.is_datetime Sample.toLowerCase Sample.QueryParam
           Sample.as_string Sample.coerce_int
           Sample.t3 "u" (PUT_todo "b" good_body) "b" Sample.store eq_refl).
Defined.

Lemma store_id_free_u_after_create : id_free "u" after_create.
Proof. repeat constructor; discriminate. Defined.

Lemma created_in_after_create : created ∈ after_create.
Proof. apply list_elem_of_here. Defined.

Lemma created_done_after_done :
  created_done ∈ (sample_handle Sample.t2 "u" (POST_done "a") after_create).2.
Proof. apply list_elem_of_here. Defined.

Lemma stamps_of_an_id_move_forward_witness :
  reachable Sample.is_datetime Sample.toLowerCase Sample.QueryParam
            Sample.as_string Sample.coerce_int Sample.t1 after_create
  /\ time_le Sample.t1 Sample.t2
  /\ id_free "u" after_create
  /\ created ∈ after_create
  /\ created_done ∈ (sample_handle Sample.t2 "u" (POST_done "a") after_create).2
  /\ id created_done = id created
  /\ createdAt created_done = createdAt created
  /\ time_le (updatedAt created) (updatedAt created_done).
Proof.
  split; [exact after_create_reachable|]. split; [reflexivity|].
  split; [exact store_id_free_u_after_create|].
  split; [exact created_in_after_create|].
  split; [exact created_done_after_done|]. split; [reflexivity|].
  exact (stamps_of_an_id_move_forward
           Sample.is_datetime Sample.toLowerCase Sample.QueryParam
           Sample.as_string Sample.coerce_int
           Sample.t1 Sample.t2 "u" (POST_done "a") after_create
           created created_done
           after_create_reachable eq_refl store_id_free_u_after_create
           created_in_after_create created_done_after_done eq_refl).
Defined.

Lemma reachable_store_is_well_formed_witness :
  reachable Sample.is_datetime Sample.toLowerCase Sample.QueryParam
            Sample.as_string Sample.coerce_int Sample.t1 after_create
  /\ ids_unique after_create
  /\ Forall (record_valid Sample.is_datetime) after_create.
Proof.
  split; [exact after_create_reachable|].
  exact (reachable_store_is_well_formed
           Sample.is_datetime Sample.toLowerCase Sample.QueryParam
           Sample.as_string Sample.coerce_int
           Sample.t1 after_create after_create_reachable).
Defined.

Lemma page_holds_what_is_left_witness :
  1 <= 2 /\ 1 <= 2
  /\ Z.of_nat
       (length (data (query Sample.toLowerCase (Sample.paged 2 2) Sample.store)))
     = 1
  /\ totalPages (query Sample.toLowerCase (Sample.paged 2 2) Sample.store) = 2.
Proof.
  split; [lia|]. split; [lia|].
  destruct (page_holds_what_is_left Sample.toLowerCase (Sample.paged 2 2)
              Sample.store) as (Hlen & _ & _);
    [change (1 <= 2); lia | change (1 <= 2); lia |].
  split; [exact Hlen | reflexivity].
Defined.

Lemma later_put_wins_witness :
  first_at "b" Sample.store 1 Sample.B
  /\ replaceTodoSchema Sample.is_datetime (put_body good_body) = Valid good_input
  /\ put_todo Sample.is_datetime Sample.t3 "b" good_body
       (put_todo Sample.is_datetime Sample.t2 "b" bad_body Sample.store).2
     = put_todo Sample.is_datetime Sample.t3 "b" good_body Sample.store.
Proof.
  split; [exact store_first_at_b|]. split; [reflexivity|].
  exact (later_put_wins Sample.is_datetime Sample.t2 Sample.t3 "b"
           bad_body good_body Sample.store 1 Sample.B good_input
           store_first_at_b eq_refl).
Defined.

Lemma put_without_status_is_pending_witness :
  r_status (mkRawBody (RString "Write report") RAbsent RAbsent RAbsent RAbsent)
  = RAbsent
  /\ status Sample.B = done
  /\ put_todo Sample.is_datetime Sample.t3 "b"
       (BObject (mkRawBody (RString "Write report") RAbsent RAbsent RAbsent
                           RAbsent))
       Sample.store
     = (mkResponse 200
          (TodoJson (mkTodo "b" "Write report" None pending Sample.t2
                            Sample.t3 None None)),
        [Sample.C;
         mkTodo "b" "Write report" None pending Sample.t2 Sample.t3 None None;
         Sample.A])
  /\ status (mkTodo "b" "Write report" None pending Sample.t2 Sample.t3
                    None None) = pending.
Proof.
  split; [reflexivity|]. split; [reflexivity|]. split; [reflexivity|].
  exact (proj1 (put_without_status_is_pending
                  Sample.is_datetime Sample.t3 "b"
                  (mkRawBody (RString "Write report") RAbsent RAbsent RAbsent
                             RAbsent)
                  Sample.store 200 _ _ eq_refl eq_refl)).
Defined.
